(** * Layer animation engine of the NWS forecast page (main.js)

    A shallow embedding of the frame normalisation, the playback timer and
    the display-mode handling of [main.js], with the properties of the
    engine's specification stated and proved over it.

    Conventions of the embedding.
    - A JavaScript number is a [num]: a finite value, NaN or one of the two
      infinities.  Frame times are epoch seconds, so finite numbers are
      integers ([Z]); the sign of zero is not tracked.
    - A parsed JSON payload is a [value]; the fields of an object are listed
      in the order in which [Object.values] enumerates them.
    - A JavaScript exception is [None] in the [option] monad.
    - Leaflet's layer objects live in a heap indexed by identifiers; the map
      is the set of identifiers it currently shows, the browser's interval
      table is the set of live interval timers.
    - Writes to the page's text, slider and button elements and to the
      console are not part of the state. *)

From stdpp Require Import base option list sorting gmap strings pretty.
From Stdlib Require Import ZArith QArith Ascii.

(** ** JavaScript values *)

Module JS.

Inductive num : Type :=
  | Fin (z : Z)
  | NaN
  | PInf
  | NInf.

#[global] Instance num_eq_dec : EqDecision num.
Proof. solve_decision. Defined.

(** [Number.isFinite] on a number. *)
Definition isFinite (n : num) : bool :=
  match n with Fin _ => true | _ => false end.

(** [a - b] on numbers. *)
Definition sub (a b : num) : num :=
  match a, b with
  | NaN, _ | _, NaN => NaN
  | Fin x, Fin y => Fin (x - y)
  | Fin _, PInf => NInf
  | Fin _, NInf => PInf
  | PInf, PInf => NaN
  | PInf, _ => PInf
  | NInf, NInf => NaN
  | NInf, _ => NInf
  end.

(** [n > 0]; a comparator result that is NaN counts as zero in [sort]. *)
Definition positive_num (n : num) : bool :=
  match n with
  | Fin z => (0 <? z)%Z
  | PInf => true
  | _ => false
  end.

Unset Elimination Schemes.
Inductive value : Type :=
  | VUndef
  | VNull
  | VBool (b : bool)
  | VNum (n : num)
  | VStr (s : string)
  | VArr (items : list value)
  | VObj (fields : list (string * value)).
Set Elimination Schemes.

(** Truthiness, as tested by [!val], [a && b] and [if (v)]. *)
Definition truthy (v : value) : bool :=
  match v with
  | VUndef | VNull => false
  | VBool b => b
  | VNum (Fin z) => negb (z =? 0)%Z
  | VNum NaN => false
  | VNum _ => true
  | VStr s => negb (String.eqb s "")
  | VArr _ | VObj _ => true
  end.

Definition isArray (v : value) : bool :=
  match v with VArr _ => true | _ => false end.

(** Own property lookup in an object's field list. *)
Fixpoint field (k : string) (fs : list (string * value)) : value :=
  match fs with
  | [] => VUndef
  | (k', v) :: fs' => if String.eqb k k' then v else field k fs'
  end.

(** [v.k] for the property names the engine reads ([radar], [past],
    [nowcast], [satellite], [time], [path]): reading a property of
    [undefined] or [null] throws, a primitive or an array has none of
    them. *)
Definition get (v : value) (k : string) : option value :=
  match v with
  | VUndef | VNull => None
  | VObj fs => Some (field k fs)
  | _ => Some VUndef
  end.

(** The parts of [Number(v)] that the language leaves to its string grammar:
    the numeric value of a string, and the string an array or object is
    converted to first. *)
Class Coercions := {
  StringToNumber : string → num;
  ObjectToString : value → string
}.

Definition Number `{Coercions} (v : value) : num :=
  match v with
  | VUndef => NaN
  | VNull => Fin 0
  | VBool b => if b then Fin 1 else Fin 0
  | VNum n => n
  | VStr s => StringToNumber s
  | VArr _ | VObj _ => StringToNumber (ObjectToString v)
  end.

(** [Array.prototype.sort(cmp)]: the sort is stable, so for a consistent
    comparator its result is the one of a stable insertion sort;
    [gt a b] is [cmp(a, b) > 0]. *)
Section Sort.
Context {A : Type} (gt : A → A → bool).

Fixpoint insert (x : A) (l : list A) : list A :=
  match l with
  | [] => [x]
  | y :: l' => if gt x y then y :: insert x l' else x :: l
  end.

Fixpoint sort (l : list A) : list A :=
  match l with
  | [] => []
  | x :: l' => insert x (sort l')
  end.
End Sort.

(** [l.slice(start)] *)
Definition slice {A} (start : Z) (l : list A) : list A :=
  let len := Z.of_nat (length l) in
  let k := if (start <? 0)%Z then Z.max (len + start) 0 else Z.min start len in
  drop (Z.to_nat k) l.

(** [a % b], the remainder that takes the sign of the dividend. *)
Definition rem (a b : Z) : Z := Z.rem a b.

(** [l[i]] *)
Definition nth {A} (l : list A) (i : Z) : option A :=
  if (i <? 0)%Z then None else l !! Z.to_nat i.

End JS.

Import JS.

(** ** Frame normaliser *)

(** A satellite frame record [{path, time}]; [time] is a finite number or
    [null]. *)
Record SatFrame := mkSatFrame { path : string; time : option num }.

#[global] Instance SatFrame_eq_dec : EqDecision SatFrame.
Proof. solve_decision. Defined.

Section Normaliser.
Context `{Coercions}.

(** The comparator [(a, b) => a - b], as the test [a - b > 0]. *)
Definition cmp_num (a b : num) : bool := positive_num (sub a b).

(** The part of [initRadarAnimation] that builds [rainFrames] from the
    parsed payload [data]; [None] when reading [f.time] throws. *)
Definition radar_frames (data : value) (MAX_FRAMES : Z) : option (list num) :=
  radar ← (if truthy data then get data "radar" else Some VUndef);
  if truthy radar then
    pastv ← get radar "past";
    nowcv ← get radar "nowcast";
    let past := match pastv with VArr l => l | _ => [] end in
    let nowc := match nowcv with VArr l => l | _ => [] end in
    times ← mapM (λ f, t ← get f "time"; Some (Number t)) (past ++ nowc);
    let frames := filter (λ n, isFinite n = true) times in
    let frames := sort cmp_num frames in
    Some (slice (- MAX_FRAMES) frames)
  else match data with
  | VArr items =>
    let frames := filter (λ n, isFinite n = true) (Number <$> items) in
    let frames := sort cmp_num frames in
    Some (slice (- MAX_FRAMES) frames)
  | _ => Some []
  end.

(** The inner [visit] of [extractSatelliteFrames]; the array [frames]
    it pushes to is threaded through. *)
Fixpoint visit (val : value) (frames : list SatFrame) : list SatFrame :=
  if negb (truthy val) then frames else
  match val with
  | VArr items => fold_left (λ acc v, visit v acc) items frames
  | VObj fields =>
    let path := match field "path" fields with VStr s => Some s | _ => None end in
    let time := Number (field "time" fields) in
    let frames :=
      match path with
      | Some p =>
        if truthy (VStr p)
        then frames ++ [mkSatFrame p (if isFinite time then Some time else None)]
        else frames
      | None => frames
      end in
    fold_left (λ acc kv, visit (snd kv) acc) fields frames
  | _ => frames
  end.

(** The [for ... of] loop over the collected frames. *)
Definition dedupe_step (st : gset string * list SatFrame) (frame : SatFrame)
  : gset string * list SatFrame :=
  let '(seenPaths, deduped) := st in
  if negb (truthy (VStr (path frame))) || bool_decide (path frame ∈ seenPaths)
  then st
  else ({[path frame]} ∪ seenPaths, deduped ++ [frame]).

Definition dedupe (frames : list SatFrame) : list SatFrame :=
  snd (fold_left dedupe_step frames (∅, [])).

(** [Number.isFinite(a.time) ? a.time : 0] *)
Definition time_key (a : SatFrame) : num :=
  match time a with
  | Some t => if isFinite t then t else Fin 0
  | None => Fin 0
  end.

Definition cmp_time (a b : SatFrame) : bool :=
  positive_num (sub (time_key a) (time_key b)).

Definition extractSatelliteFrames (source : value) : list SatFrame :=
  let frames := visit source [] in
  let deduped := dedupe frames in
  sort cmp_time deduped.
End Normaliser.

(** ** State of the animation engine *)

Inductive LayerType := radar | satellite | clouds | temp.
Inductive Mode := auto | animated | static | off.

#[global] Instance LayerType_eq_dec : EqDecision LayerType.
Proof. solve_decision. Defined.
#[global] Instance Mode_eq_dec : EqDecision Mode.
Proof. solve_decision. Defined.

(** [String.prototype.toLowerCase], on the ASCII letters. *)
Definition lower_ascii (c : Ascii.ascii) : Ascii.ascii :=
  let n := Ascii.N_of_ascii c in
  if ((65 <=? n) && (n <=? 90))%N then Ascii.ascii_of_N (n + 32) else c.

Fixpoint toLowerCase (s : string) : string :=
  match s with
  | EmptyString => EmptyString
  | String c s' => String (lower_ascii c) (toLowerCase s')
  end.

Definition LAYER_ALIASES : list (string * LayerType) :=
  [ ("radar", radar); ("precip", radar); ("precipitation", radar);
    ("rain", radar); ("satellite", satellite); ("visible", satellite);
    ("vis", satellite); ("clouds", clouds); ("cloud", clouds); ("ir", clouds);
    ("infrared", clouds); ("temp", temp); ("temperature", temp) ].

Fixpoint alias (key : string) (table : list (string * LayerType))
  : option LayerType :=
  match table with
  | [] => None
  | (k, ty) :: table' => if String.eqb key k then Some ty else alias key table'
  end.

(** Every valid layer name is also a key of the alias table, so the final
    [VALID_LAYER_TYPES.includes(key)] test only ever yields ['radar']. *)
Definition normalizeLayerType (layerType : string) : LayerType :=
  if negb (truthy (VStr layerType)) then radar else
  let key := toLowerCase layerType in
  match alias key LAYER_ALIASES with
  | Some ty => ty
  | None => radar
  end.

Definition getStaticLayerUrl (ty : LayerType) : string :=
  match ty with
  | radar => "https://mesonet.agron.iastate.edu/cache/tile.py/1.0.0/ridge::USCOMP-N0Q-0/{z}/{x}/{y}.png"
  | satellite => "https://mesonet.agron.iastate.edu/cache/tile.py/1.0.0/ridge::GOES-CONUS-VIS-0/{z}/{x}/{y}.png"
  | clouds | temp => "https://mesonet.agron.iastate.edu/cache/tile.py/1.0.0/ridge::GOES-CONUS-13-0/{z}/{x}/{y}.png"
  end.

Definition getLayerAttribution (ty : LayerType) : string :=
  match ty with
  | radar => "Animated: RainViewer - Static: NEXRAD (Iowa State Mesonet)"
  | satellite => "Animated: RainViewer Satellite - Static: GOES Visible (Iowa State Mesonet)"
  | clouds | temp => "Animated: RainViewer Infrared - Static: GOES IR (Iowa State Mesonet)"
  end.

(** A frame of either frame list, and the token a tile URL is built from. *)
Inductive Frame := FNum (t : num) | FSat (f : SatFrame).
Inductive Token := TokNum (t : num) | TokStr (p : string).

Definition num_to_string (n : num) : string :=
  match n with
  | Fin z => pretty z
  | NaN => "NaN"
  | PInf => "Infinity"
  | NInf => "-Infinity"
  end.

Definition rvFrameUrl (frameToken : Token) (size : Z) (ty : LayerType) : string :=
  match ty with
  | radar =>
    let ts := match frameToken with
              | TokNum t => if isFinite t then t else Fin 0
              | TokStr _ => Fin 0
              end in
    "https://tilecache.rainviewer.com/v2/radar/" +:+ num_to_string ts +:+ "/"
      +:+ pretty size +:+ "/{z}/{x}/{y}/2/1_1.png"
  | _ =>
    let pathId := match frameToken with
                  | TokStr p => if truthy (VStr p) then p else "0"
                  | TokNum t => if truthy (VNum t) then num_to_string t else "0"
                  end in
    "https://tilecache.rainviewer.com/v2/satellite/" +:+ pathId +:+ "/"
      +:+ pretty size +:+ "/{z}/{x}/{y}/0/"
      +:+ (if decide (ty = satellite) then "0_0.png" else "0_1.png")
  end.

(** [getFrameToken(frame, layerType)]; [None] is both the [undefined] read
    past the end of a frame list and the [null] result. *)
Definition getFrameToken (frame : option Frame) (ty : LayerType) : option Token :=
  match ty with
  | radar =>
    match frame with
    | Some (FNum t) => if isFinite t then Some (TokNum t) else None
    | Some (FSat f) =>
      match time f with
      | Some t => if isFinite t then Some (TokNum t) else None
      | None => None
      end
    | None => None
    end
  | _ =>
    match frame with
    | Some (FSat f) => Some (TokStr (path f))
    | _ => None
    end
  end.

(** A Leaflet tile layer object: its URL template and the options the
    engine sets (the constant [tms: false] is left out).  Opacity is kept in
    hundredths, as the opacity slider delivers it. *)
Record TileLayer := mkTileLayer {
  url : string;
  opacity : Z;
  zIndex : Z;
  tileSize : option Z;
  zoomOffset : option Z;
  attribution : string
}.

(** The script's global variables, followed by the part of the browser they
    refer to: the layer objects created so far, the layers the map shows,
    and the live interval timers with their delays. *)
Record State := mkState {
  currentLayerType : LayerType;
  currentMode : Mode;
  rainFrames : list num;
  satelliteFrames : list SatFrame;
  radarLayer : option nat;
  rainLayer : option nat;
  frameIndex : Z;
  animTimer : option positive;
  isPlaying : bool;
  RECOMMENDED_MAX_FRAMES : Z;
  MAX_FRAMES : Z;
  FRAME_INTERVAL : Z;
  LAYER_OPACITY : Z;
  TILE_SIZE : Z;
  layers : gmap nat TileLayer;
  onMap : gset nat;
  nextLayer : nat;
  intervals : gmap positive Z;
  nextTimer : positive
}.

(** Assignment to one variable. *)
Definition set_currentLayerType (v : LayerType) (s : State) : State :=
  mkState v (currentMode s) (rainFrames s) (satelliteFrames s) (radarLayer
    s) (rainLayer s) (frameIndex s) (animTimer s) (isPlaying s)
    (RECOMMENDED_MAX_FRAMES s) (MAX_FRAMES s) (FRAME_INTERVAL s)
    (LAYER_OPACITY s) (TILE_SIZE s) (layers s) (onMap s) (nextLayer s)
    (intervals s) (nextTimer s).

Definition set_currentMode (v : Mode) (s : State) : State :=
  mkState (currentLayerType s) v (rainFrames s) (satelliteFrames s)
    (radarLayer s) (rainLayer s) (frameIndex s) (animTimer s) (isPlaying s)
    (RECOMMENDED_MAX_FRAMES s) (MAX_FRAMES s) (FRAME_INTERVAL s)
    (LAYER_OPACITY s) (TILE_SIZE s) (layers s) (onMap s) (nextLayer s)
    (intervals s) (nextTimer s).

Definition set_rainFrames (v : list num) (s : State) : State :=
  mkState (currentLayerType s) (currentMode s) v (satelliteFrames s)
    (radarLayer s) (rainLayer s) (frameIndex s) (animTimer s) (isPlaying s)
    (RECOMMENDED_MAX_FRAMES s) (MAX_FRAMES s) (FRAME_INTERVAL s)
    (LAYER_OPACITY s) (TILE_SIZE s) (layers s) (onMap s) (nextLayer s)
    (intervals s) (nextTimer s).

Definition set_satelliteFrames (v : list SatFrame) (s : State) : State :=
  mkState (currentLayerType s) (currentMode s) (rainFrames s) v (radarLayer
    s) (rainLayer s) (frameIndex s) (animTimer s) (isPlaying s)
    (RECOMMENDED_MAX_FRAMES s) (MAX_FRAMES s) (FRAME_INTERVAL s)
    (LAYER_OPACITY s) (TILE_SIZE s) (layers s) (onMap s) (nextLayer s)
    (intervals s) (nextTimer s).

Definition set_radarLayer (v : option nat) (s : State) : State :=
  mkState (currentLayerType s) (currentMode s) (rainFrames s)
    (satelliteFrames s) v (rainLayer s) (frameIndex s) (animTimer s)
    (isPlaying s) (RECOMMENDED_MAX_FRAMES s) (MAX_FRAMES s) (FRAME_INTERVAL
    s) (LAYER_OPACITY s) (TILE_SIZE s) (layers s) (onMap s) (nextLayer s)
    (intervals s) (nextTimer s).

Definition set_rainLayer (v : option nat) (s : State) : State :=
  mkState (currentLayerType s) (currentMode s) (rainFrames s)
    (satelliteFrames s) (radarLayer s) v (frameIndex s) (animTimer s)
    (isPlaying s) (RECOMMENDED_MAX_FRAMES s) (MAX_FRAMES s) (FRAME_INTERVAL
    s) (LAYER_OPACITY s) (TILE_SIZE s) (layers s) (onMap s) (nextLayer s)
    (intervals s) (nextTimer s).

Definition set_frameIndex (v : Z) (s : State) : State :=
  mkState (currentLayerType s) (currentMode s) (rainFrames s)
    (satelliteFrames s) (radarLayer s) (rainLayer s) v (animTimer s)
    (isPlaying s) (RECOMMENDED_MAX_FRAMES s) (MAX_FRAMES s) (FRAME_INTERVAL
    s) (LAYER_OPACITY s) (TILE_SIZE s) (layers s) (onMap s) (nextLayer s)
    (intervals s) (nextTimer s).

Definition set_animTimer (v : option positive) (s : State) : State :=
  mkState (currentLayerType s) (currentMode s) (rainFrames s)
    (satelliteFrames s) (radarLayer s) (rainLayer s) (frameIndex s) v
    (isPlaying s) (RECOMMENDED_MAX_FRAMES s) (MAX_FRAMES s) (FRAME_INTERVAL
    s) (LAYER_OPACITY s) (TILE_SIZE s) (layers s) (onMap s) (nextLayer s)
    (intervals s) (nextTimer s).

Definition set_isPlaying (v : bool) (s : State) : State :=
  mkState (currentLayerType s) (currentMode s) (rainFrames s)
    (satelliteFrames s) (radarLayer s) (rainLayer s) (frameIndex s)
    (animTimer s) v (RECOMMENDED_MAX_FRAMES s) (MAX_FRAMES s)
    (FRAME_INTERVAL s) (LAYER_OPACITY s) (TILE_SIZE s) (layers s) (onMap s)
    (nextLayer s) (intervals s) (nextTimer s).

Definition set_MAX_FRAMES (v : Z) (s : State) : State :=
  mkState (currentLayerType s) (currentMode s) (rainFrames s)
    (satelliteFrames s) (radarLayer s) (rainLayer s) (frameIndex s)
    (animTimer s) (isPlaying s) (RECOMMENDED_MAX_FRAMES s) v (FRAME_INTERVAL
    s) (LAYER_OPACITY s) (TILE_SIZE s) (layers s) (onMap s) (nextLayer s)
    (intervals s) (nextTimer s).

Definition set_FRAME_INTERVAL (v : Z) (s : State) : State :=
  mkState (currentLayerType s) (currentMode s) (rainFrames s)
    (satelliteFrames s) (radarLayer s) (rainLayer s) (frameIndex s)
    (animTimer s) (isPlaying s) (RECOMMENDED_MAX_FRAMES s) (MAX_FRAMES s) v
    (LAYER_OPACITY s) (TILE_SIZE s) (layers s) (onMap s) (nextLayer s)
    (intervals s) (nextTimer s).

Definition set_LAYER_OPACITY (v : Z) (s : State) : State :=
  mkState (currentLayerType s) (currentMode s) (rainFrames s)
    (satelliteFrames s) (radarLayer s) (rainLayer s) (frameIndex s)
    (animTimer s) (isPlaying s) (RECOMMENDED_MAX_FRAMES s) (MAX_FRAMES s)
    (FRAME_INTERVAL s) v (TILE_SIZE s) (layers s) (onMap s) (nextLayer s)
    (intervals s) (nextTimer s).

Definition set_TILE_SIZE (v : Z) (s : State) : State :=
  mkState (currentLayerType s) (currentMode s) (rainFrames s)
    (satelliteFrames s) (radarLayer s) (rainLayer s) (frameIndex s)
    (animTimer s) (isPlaying s) (RECOMMENDED_MAX_FRAMES s) (MAX_FRAMES s)
    (FRAME_INTERVAL s) (LAYER_OPACITY s) v (layers s) (onMap s) (nextLayer
    s) (intervals s) (nextTimer s).

Definition set_layers (v : gmap nat TileLayer) (s : State) : State :=
  mkState (currentLayerType s) (currentMode s) (rainFrames s)
    (satelliteFrames s) (radarLayer s) (rainLayer s) (frameIndex s)
    (animTimer s) (isPlaying s) (RECOMMENDED_MAX_FRAMES s) (MAX_FRAMES s)
    (FRAME_INTERVAL s) (LAYER_OPACITY s) (TILE_SIZE s) v (onMap s)
    (nextLayer s) (intervals s) (nextTimer s).

Definition set_onMap (v : gset nat) (s : State) : State :=
  mkState (currentLayerType s) (currentMode s) (rainFrames s)
    (satelliteFrames s) (radarLayer s) (rainLayer s) (frameIndex s)
    (animTimer s) (isPlaying s) (RECOMMENDED_MAX_FRAMES s) (MAX_FRAMES s)
    (FRAME_INTERVAL s) (LAYER_OPACITY s) (TILE_SIZE s) (layers s) v
    (nextLayer s) (intervals s) (nextTimer s).

Definition set_nextLayer (v : nat) (s : State) : State :=
  mkState (currentLayerType s) (currentMode s) (rainFrames s)
    (satelliteFrames s) (radarLayer s) (rainLayer s) (frameIndex s)
    (animTimer s) (isPlaying s) (RECOMMENDED_MAX_FRAMES s) (MAX_FRAMES s)
    (FRAME_INTERVAL s) (LAYER_OPACITY s) (TILE_SIZE s) (layers s) (onMap s)
    v (intervals s) (nextTimer s).

Definition set_intervals (v : gmap positive Z) (s : State) : State :=
  mkState (currentLayerType s) (currentMode s) (rainFrames s)
    (satelliteFrames s) (radarLayer s) (rainLayer s) (frameIndex s)
    (animTimer s) (isPlaying s) (RECOMMENDED_MAX_FRAMES s) (MAX_FRAMES s)
    (FRAME_INTERVAL s) (LAYER_OPACITY s) (TILE_SIZE s) (layers s) (onMap s)
    (nextLayer s) v (nextTimer s).

Definition set_nextTimer (v : positive) (s : State) : State :=
  mkState (currentLayerType s) (currentMode s) (rainFrames s)
    (satelliteFrames s) (radarLayer s) (rainLayer s) (frameIndex s)
    (animTimer s) (isPlaying s) (RECOMMENDED_MAX_FRAMES s) (MAX_FRAMES s)
    (FRAME_INTERVAL s) (LAYER_OPACITY s) (TILE_SIZE s) (layers s) (onMap s)
    (nextLayer s) (intervals s) v.


(** ** Leaflet and timer primitives *)

(** [L.tileLayer(url, opts)]: a new layer object, not yet on the map. *)
Definition tileLayer (l : TileLayer) (s : State) : nat * State :=
  let id := nextLayer s in
  (id, set_nextLayer (S id) (set_layers (<[id := l]> (layers s)) s)).

Definition hasLayer (id : nat) (s : State) : bool := bool_decide (id ∈ onMap s).

Definition removeLayer (id : nat) (s : State) : State :=
  set_onMap (onMap s ∖ {[id]}) s.

Definition addTo (id : nat) (s : State) : State :=
  set_onMap ({[id]} ∪ onMap s) s.

Definition setUrl (id : nat) (u : string) (s : State) : State :=
  set_layers
    (alter (λ l, mkTileLayer u (opacity l) (zIndex l) (tileSize l)
                   (zoomOffset l) (attribution l)) id (layers s)) s.

Definition setOpacity (id : nat) (v : Z) (s : State) : State :=
  set_layers
    (alter (λ l, mkTileLayer (url l) v (zIndex l) (tileSize l)
                   (zoomOffset l) (attribution l)) id (layers s)) s.

(** [setInterval(callback, delay)]; the engine's only callback is
    [() => showFrame(frameIndex + 1)].  Timer identifiers are positive, hence
    truthy. *)
Definition setInterval (delay : Z) (s : State) : positive * State :=
  let id := nextTimer s in
  (id, set_nextTimer (Pos.succ id) (set_intervals (<[id := delay]> (intervals s)) s)).

Definition clearInterval (id : positive) (s : State) : State :=
  set_intervals (delete id (intervals s)) s.

(** [if (layer && map.hasLayer(layer)) map.removeLayer(layer)] *)
Definition remove_if_shown (layer : option nat) (s : State) : State :=
  match layer with
  | Some id => if hasLayer id s then removeLayer id s else s
  | None => s
  end.

(** [if (layer && !map.hasLayer(layer)) layer.addTo(map)] *)
Definition add_if_hidden (layer : option nat) (s : State) : State :=
  match layer with
  | Some id => if negb (hasLayer id s) then addTo id s else s
  | None => s
  end.

(** ** Operations of the engine *)

(** [layerType === 'radar' ? rainFrames : satelliteFrames] *)
Definition frames_of (ty : LayerType) (s : State) : list Frame :=
  match ty with
  | radar => FNum <$> rainFrames s
  | _ => FSat <$> satelliteFrames s
  end.

Definition active_frames (s : State) : list Frame :=
  frames_of (currentLayerType s) s.

Definition animated_opts (u : string) (s : State) : TileLayer :=
  if (TILE_SIZE s =? 512)%Z
  then mkTileLayer u (LAYER_OPACITY s) 550 (Some 512%Z) (Some (-1)%Z) ""
  else mkTileLayer u (LAYER_OPACITY s) 550 None None "".

Definition wants_animation (m : Mode) : bool :=
  match m with animated | auto => true | _ => false end.

Definition showFrame (i : Z) (s : State) : State :=
  let frames := active_frames s in
  if (length frames =? 0)%nat then s else
  let s := set_frameIndex (rem (i + Z.of_nat (length frames)) (Z.of_nat (length frames))) s in
  let frame := nth frames (frameIndex s) in
  match getFrameToken frame (currentLayerType s) with
  | None => s
  | Some token =>
    let tileUrl := rvFrameUrl token (TILE_SIZE s) (currentLayerType s) in
    match rainLayer s with
    | Some id =>
      if hasLayer id s then setUrl id tileUrl s
      else
        let '(id', s) := tileLayer (animated_opts tileUrl s) s in
        let s := set_rainLayer (Some id') s in
        if wants_animation (currentMode s) then addTo id' s else s
    | None =>
      let '(id', s) := tileLayer (animated_opts tileUrl s) s in
      let s := set_rainLayer (Some id') s in
      if wants_animation (currentMode s) then addTo id' s else s
    end
  end.

Definition play (s : State) : State :=
  let frames := active_frames s in
  if bool_decide (is_Some (animTimer s)) || (length frames =? 0)%nat then s else
  let s := set_isPlaying true s in
  let '(t, s) := setInterval (FRAME_INTERVAL s) s in
  set_animTimer (Some t) s.

Definition pause (s : State) : State :=
  let s := set_isPlaying false s in
  match animTimer s with
  | Some t => set_animTimer None (clearInterval t s)
  | None => s
  end.

Definition setMode (mode : Mode) (s : State) : State :=
  let s := set_currentMode mode s in
  match mode with
  | off =>
    let s := remove_if_shown (radarLayer s) s in
    remove_if_shown (rainLayer s) s
  | static =>
    let s := remove_if_shown (rainLayer s) s in
    add_if_hidden (radarLayer s) s
  | _ =>
    let s := remove_if_shown (radarLayer s) s in
    add_if_hidden (rainLayer s) s
  end.

Definition setRadarOpacity (v : Z) (s : State) : State :=
  let s := set_LAYER_OPACITY v s in
  let s := match radarLayer s with Some id => setOpacity id v s | None => s end in
  match rainLayer s with Some id => setOpacity id v s | None => s end.

Definition setLayerType (layerType : string) (s : State) : State :=
  let wasPlaying := isPlaying s in
  let s := if wasPlaying then pause s else s in
  let normalized := normalizeLayerType layerType in
  let s := set_currentLayerType normalized s in
  let s := remove_if_shown (radarLayer s) s in
  let s := remove_if_shown (rainLayer s) s in
  let '(id, s) :=
    tileLayer (mkTileLayer (getStaticLayerUrl normalized) (LAYER_OPACITY s) 500
                 None None (getLayerAttribution normalized)) s in
  let s := set_radarLayer (Some id) s in
  let frames := frames_of normalized s in
  if (0 <? length frames)%nat then
    let s := set_rainLayer None s in
    let s := set_frameIndex (Z.of_nat (length frames) - 1) s in
    let s := showFrame (frameIndex s) s in
    let s := setMode (currentMode s) s in
    if wasPlaying then play s else s
  else
    if wants_animation (currentMode s) then setMode static s
    else
      let s := setMode (currentMode s) s in
      if wasPlaying then play s else s.

Definition setResolution (size : Z) (s : State) : State :=
  let wasPlaying := isPlaying s in
  let s := if wasPlaying then pause s else s in
  let s := set_TILE_SIZE size s in
  let s := set_FRAME_INTERVAL (if (size =? 512)%Z then 650 else 450)%Z s in
  let s := remove_if_shown (rainLayer s) s in
  let s := set_rainLayer None s in
  let s := showFrame (frameIndex s) s in
  let s := setMode (currentMode s) s in
  if wasPlaying then play s else s.

(** ** Refreshing the frame lists *)

(** What a [fetch] followed by [res.json()] comes to. *)
Inductive Response :=
  | NetworkError
  | NotOk (status : Z)
  | BadJson
  | Json (data : value).

Section Refresh.
Context `{Coercions}.

(** The inner [try ... catch (satErr)] of [initRadarAnimation]: the
    satellite frames of the primary payload, or those of the secondary
    feed [satellite.json] when the first has none. *)
Definition satellite_frames (data : value) (satelliteRes : Response)
  : list SatFrame :=
  let attempt : option (list SatFrame) :=
    sat ← (if truthy data then get data "satellite" else Some VUndef);
    let satFrames := if truthy sat then extractSatelliteFrames sat else [] in
    if (length satFrames =? 0)%nat then
      match satelliteRes with
      | NetworkError | BadJson => None
      | NotOk _ => Some satFrames
      | Json satelliteData => Some (extractSatelliteFrames satelliteData)
      end
    else Some satFrames in
  match attempt with
  | Some satFrames => satFrames
  | None => []
  end.

(** [initRadarAnimation], given the outcomes of its two requests (the
    second is only looked at when the function issues it).  Every
    exception ends in the outer handler, which calls [setMode('static')]. *)
Definition initRadarAnimation (radarRes satelliteRes : Response) (s : State)
  : State :=
  match radarRes with
  | NetworkError | NotOk _ | BadJson => setMode static s
  | Json data =>
    match radar_frames data (MAX_FRAMES s) with
    | None => setMode static s
    | Some frames =>
      let s := set_rainFrames frames s in
      let satFrames := satellite_frames data satelliteRes in
      let s := set_satelliteFrames (slice (- MAX_FRAMES s) satFrames) s in
      let frames := active_frames s in
      if (0 <? length frames)%nat then
        let s := showFrame (Z.of_nat (length frames) - 1) s in
        let s := setMode (currentMode s) s in
        match radarLayer s with
        | Some id =>
          if hasLayer id s && wants_animation (currentMode s)
          then removeLayer id s else s
        | None => s
        end
      else setMode static s
    end
  end.
End Refresh.

(** ** Controls *)

Definition is_space (c : Ascii.ascii) : bool :=
  let n := Ascii.N_of_ascii c in
  ((n =? 32) || ((9 <=? n) && (n <=? 13)))%N.

Fixpoint skip_spaces (s : string) : string :=
  match s with
  | String c s' => if is_space c then skip_spaces s' else s
  | EmptyString => s
  end.

Definition digit (c : Ascii.ascii) : option Z :=
  let n := Ascii.N_of_ascii c in
  if ((48 <=? n) && (n <=? 57))%N then Some (Z.of_N n - 48)%Z else None.

Fixpoint digits (s : string) (acc : option Z) : option Z :=
  match s with
  | String c s' =>
    match digit c with
    | Some d => digits s' (Some (10 * default 0 acc + d))%Z
    | None => acc
    end
  | EmptyString => acc
  end.

(** [parseInt(s, 10)]; [None] is NaN. *)
Definition parseInt (s : string) : option Z :=
  match skip_spaces s with
  | String "-"%char s' => Z.opp <$> digits s' None
  | String "+"%char s' => digits s' None
  | s' => digits s' None
  end.

(** [x || d] for a number [x]: NaN and zero are falsy. *)
Definition or_default (x : option Z) (d : Z) : Z :=
  match x with
  | Some z => if (z =? 0)%Z then d else z
  | None => d
  end.

(** [Math.min(60, IS_MOBILE ? 24 : (DEVICE_MEM >= 8 ? 48 : DEVICE_MEM >= 4 ? 36 : 24))],
    with [DEVICE_MEM = navigator.deviceMemory || 4]. *)
Definition recommended_max_frames (IS_MOBILE : bool) (deviceMemory : option Q) : Z :=
  let DEVICE_MEM :=
    match deviceMemory with
    | Some m => if Qeq_bool m 0 then 4%Q else m
    | None => 4%Q
    end in
  Z.min 60 (if IS_MOBILE then 24
            else if Qle_bool 8 DEVICE_MEM then 48
            else if Qle_bool 4 DEVICE_MEM then 36 else 24).

(** The state after [initMap]: the static radar layer is on the map (the
    base map and the location marker, which the engine never touches, are
    not tracked). *)
Definition initial (IS_MOBILE : bool) (deviceMemory : option Q) : State :=
  let rec := recommended_max_frames IS_MOBILE deviceMemory in
  mkState radar auto [] [] (Some 0%nat) None 0 None false rec rec 450 60 256
    {[ 0%nat := mkTileLayer (getStaticLayerUrl radar) 60 500 None None
                 "Radar © Iowa State Mesonet / NWS NEXRAD" ]}
    {[ 0%nat ]} 1 ∅ 1.

Definition on_maxFrames_input (value : string) (s : State) : State :=
  let v := Z.max 6 (Z.min 60 (or_default (parseInt value) (RECOMMENDED_MAX_FRAMES s))) in
  set_MAX_FRAMES v s.

Definition on_speedSlider_input (value : string) (s : State) : State :=
  let v := Z.max 120 (Z.min 800 (or_default (parseInt value) 450)) in
  let s := set_FRAME_INTERVAL v s in
  if isPlaying s then play (pause s) else s.

Definition on_opacitySlider_input (value : string) (s : State) : State :=
  let v := Z.max 20 (Z.min 100 (or_default (parseInt value) 60)) in
  setRadarOpacity v s.

Definition on_frameSlider_input (value : string) (s : State) : State :=
  let s := pause s in
  showFrame (or_default (parseInt value) 0) s.

Definition on_playBtn_click (s : State) : State :=
  if isPlaying s then pause s else play s.

(** The callback of the playback timer. *)
Definition on_timer (id : positive) (s : State) : State :=
  match intervals s !! id with
  | Some _ => showFrame (frameIndex s + 1) s
  | None => s
  end.

Inductive Event :=
  | LayerSelectChange (value : string)
  | PlayBtnClick
  | FrameSliderInput (value : string)
  | MaxFramesInput (value : string)
  | MaxFramesChange (radarRes satelliteRes : Response)
  | SpeedSliderInput (value : string)
  | OpacitySliderInput (value : string)
  | ResStdClick
  | ResHdClick
  | ModeClick (mode : Mode)
  | RefreshBtnClick (radarRes satelliteRes : Response)
  | TimerFires (id : positive).

Section Events.
Context `{Coercions}.

Definition handle (e : Event) (s : State) : State :=
  match e with
  | LayerSelectChange v => setLayerType v s
  | PlayBtnClick => on_playBtn_click s
  | FrameSliderInput v => on_frameSlider_input v s
  | MaxFramesInput v => on_maxFrames_input v s
  | MaxFramesChange r1 r2 => initRadarAnimation r1 r2 (pause s)
  | SpeedSliderInput v => on_speedSlider_input v s
  | OpacitySliderInput v => on_opacitySlider_input v s
  | ResStdClick => setResolution 256 s
  | ResHdClick => setResolution 512 s
  | ModeClick m => setMode m s
  | RefreshBtnClick r1 r2 => initRadarAnimation r1 r2 s
  | TimerFires id => on_timer id s
  end.

Definition run (es : list Event) (s : State) : State :=
  fold_left (λ s e, handle e s) es s.
End Events.

(** ** Forecast helpers

    Integers are exact in the embedding; the rounding of integers beyond
    2^53 by JavaScript's numbers is not modelled. *)

(** The name the script uses for a layer type. *)
Definition layer_name (ty : LayerType) : string :=
  match ty with
  | radar => "radar"
  | satellite => "satellite"
  | clouds => "clouds"
  | temp => "temp"
  end.

(** [String(v)] *)
Definition to_string `{Coercions} (v : value) : string :=
  match v with
  | VUndef => "undefined"
  | VNull => "null"
  | VBool b => if b then "true" else "false"
  | VNum n => num_to_string n
  | VStr s => s
  | VArr _ | VObj _ => ObjectToString v
  end.

Definition is_digit (c : Ascii.ascii) : bool :=
  let n := Ascii.N_of_ascii c in ((48 <=? n) && (n <=? 57))%N.

(** The run of digits being read, if any, as a match. *)
Definition flush (cur : string) : list string :=
  if decide (cur = "") then [] else [cur].

(** [s.match(/\d+/g)]: the maximal runs of digits of [s], left to right;
    [cur] is the run being read.  The empty list is the [null] of a string
    without digits. *)
Fixpoint match_digits (s : string) (cur : string) : list string :=
  match s with
  | EmptyString => flush cur
  | String c s' =>
    if is_digit c then match_digits s' (cur +:+ String c "")
    else flush cur ++ match_digits s' ""
  end.

(** A number that [parseInt] returns. *)
Definition parsed (x : option Z) : num :=
  match x with Some z => Fin z | None => NaN end.

(** [Math.max(a, b)] *)
Definition max_num (a b : num) : num :=
  match a, b with
  | NaN, _ | _, NaN => NaN
  | PInf, _ | _, PInf => PInf
  | NInf, x | x, NInf => x
  | Fin x, Fin y => Fin (Z.max x y)
  end.

(** [parseWindMph(windStr)]; [None] is [null]. *)
Definition parseWindMph `{Coercions} (windStr : value) : option num :=
  if negb (truthy windStr) then None else
  let nums := match_digits (to_string windStr) "" in
  match nums with
  | [] => None
  | _ => Some (foldr max_num NInf ((λ n, parsed (parseInt n)) <$> nums))
  end.

(** [Math.round]; the finite numbers of the embedding are whole. *)
Definition round (n : num) : num := n.

(** [gustMph(period)]; a period, like any value read here, has no built-in
    property called [windGust]. *)
Definition gustMph `{Coercions} (period : value) : option num :=
  let g := default VUndef (get period "windGust") in
  match g with
  | VNum n => Some (round n)
  | _ => parseWindMph g
  end.

(** * Vocabulary of the specification *)

(** ** Frame lists *)

Definition key_le {A} (key : A → Z) (a b : A) : Prop := (key a ≤ key b)%Z.

(** The last [n] entries of a list. *)
Definition lastn {A} (n : nat) (l : list A) : list A := drop (length l - n) l.

Definition finite_part (n : num) : option Z :=
  match n with Fin z => Some z | _ => None end.

(** The finite values of a list of numbers, in order. *)
Definition finite_values (l : list num) : list Z := omap finite_part l.

Definition gtZ (a b : Z) : bool := (b <? a)%Z.

(** A record of a frame list: an object, whose [time] can be read. *)
Definition is_record (f : value) : Prop := ∃ fields, f = VObj fields.

Definition record_time (f : value) : value :=
  match f with VObj fields => field "time" fields | _ => VUndef end.

(** The values nested in a payload, the payload first, in document order. *)
Fixpoint subvalues (v : value) : list value :=
  v :: match v with
       | VArr items => flat_map subvalues items
       | VObj fields => flat_map (λ kv, subvalues (snd kv)) fields
       | _ => []
       end.

(** [child v w]: [w] is an item of the array [v] or the value of a field of
    the object [v]. *)
Inductive child : value → value → Prop :=
  | child_item items w : w ∈ items → child (VArr items) w
  | child_field fields k w : (k, w) ∈ fields → child (VObj fields) w.

(** [nested v w]: [w] is reached from [v] through any number of arrays and
    objects. *)
Definition nested : value → value → Prop := rtc child.

(** The frame record that an object with a non-empty string [path] gives. *)
Definition frame_of `{Coercions} (v : value) : option SatFrame :=
  match v with
  | VObj fields =>
    match field "path" fields with
    | VStr p =>
      if decide (p = "") then None
      else Some (mkSatFrame p
                   (match Number (field "time" fields) with
                    | Fin z => Some (Fin z)
                    | _ => None
                    end))
    | _ => None
    end
  | _ => None
  end.

(** The frames of all nested objects, in document order. *)
Definition collected `{Coercions} (source : value) : list SatFrame :=
  omap frame_of (subvalues source).

(** [first_occurrence f l]: [f] is an entry of [l] and no earlier entry has
    its path. *)
Definition first_occurrence (f : SatFrame) (l : list SatFrame) : Prop :=
  ∃ i, l !! i = Some f ∧
       ∀ j g, (j < i)%nat → l !! j = Some g → path g ≠ path f.

(** The loop of [dedupe], as a recursion over the frames still to come. *)
Fixpoint dedupe_from (seen : gset string) (l : list SatFrame) : list SatFrame :=
  match l with
  | [] => []
  | f :: l' =>
    if negb (truthy (VStr (path f))) || bool_decide (path f ∈ seen)
    then dedupe_from seen l'
    else f :: dedupe_from ({[path f]} ∪ seen) l'
  end.

(** The time a frame is sorted by: its own, or 0 when it has none. *)
Definition time_of (a : SatFrame) : Z :=
  match time a with Some (Fin z) => z | _ => 0%Z end.

(** A frame record of the radar feed, and a payload with the two radar
    arrays built from times. *)
Definition time_record (t : Z) : value := VObj [("time", VNum (Fin t))].

Definition radar_payload (past nowcast : list Z) : value :=
  VObj [("radar", VObj [("past", VArr (time_record <$> past));
                        ("nowcast", VArr (time_record <$> nowcast))])].

(** A frame record of the satellite feed. *)
Definition path_record (p : string) (t : Z) : value :=
  VObj [("time", VNum (Fin t)); ("path", VStr p)].

(** The claim that every nested object with a string [path] contributes a
    frame with that path. *)
Definition collects_every_string_path `{Coercions} (source : value) : Prop :=
  ∀ o fields p, nested source o → o = VObj fields →
    field "path" fields = VStr p →
    ∃ f, f ∈ extractSatelliteFrames source ∧ path f = p.

(** ** State of the engine *)

(** Groups of variables that an operation leaves alone. *)
Definition frames_view (s : State) : LayerType * list num * list SatFrame :=
  (currentLayerType s, rainFrames s, satelliteFrames s).

Definition timer_view (s : State)
  : option positive * bool * gmap positive Z * positive :=
  (animTimer s, isPlaying s, intervals s, nextTimer s).

Definition settings_view (s : State) : Z * Z * Z * Z * Z :=
  (RECOMMENDED_MAX_FRAMES s, MAX_FRAMES s, FRAME_INTERVAL s, LAYER_OPACITY s,
   TILE_SIZE s).

Definition map_view (s : State)
  : option nat * option nat * gmap nat TileLayer * gset nat * nat :=
  (radarLayer s, rainLayer s, layers s, onMap s, nextLayer s).

(** The frame index addresses a frame of the active frame list. *)
Definition in_bounds (s : State) : Prop :=
  (0 ≤ frameIndex s < Z.of_nat (length (active_frames s)))%Z.

(** ** Intermediate states of the operations *)

(** The state in which [setResolution] calls [showFrame]. *)
Definition resolution_set (size : Z) (s : State) : State :=
  let s := if isPlaying s then pause s else s in
  let s := set_TILE_SIZE size s in
  let s := set_FRAME_INTERVAL (if (size =? 512)%Z then 650 else 450)%Z s in
  let s := remove_if_shown (rainLayer s) s in
  set_rainLayer None s.

(** The state in which [setLayerType] looks at the new frame list: playback
    paused, the two overlays off the map, a new static overlay object. *)
Definition layer_switched (layerType : string) (s : State) : State :=
  let s := if isPlaying s then pause s else s in
  let normalized := normalizeLayerType layerType in
  let s := set_currentLayerType normalized s in
  let s := remove_if_shown (radarLayer s) s in
  let s := remove_if_shown (rainLayer s) s in
  let '(id, s) :=
    tileLayer (mkTileLayer (getStaticLayerUrl normalized) (LAYER_OPACITY s) 500
                 None None (getLayerAttribution normalized)) s in
  set_radarLayer (Some id) s.

(** The state in which [initRadarAnimation] looks at the new frame lists. *)
Definition refreshed `{Coercions} (data : value) (satelliteRes : Response) (frames : list num)
  (s : State) : State :=
  set_satelliteFrames (slice (- MAX_FRAMES s) (satellite_frames data satelliteRes))
    (set_rainFrames frames s).

(** ** Playback timer *)

(** The number of recurring timers that are live. *)
Definition timer_count (s : State) : nat := size (intervals s).

(** The timer the script remembers is the only live one, and [isPlaying]
    tells whether there is one. *)
Definition timer_ok (s : State) : Prop :=
  (isPlaying s = true ↔ is_Some (animTimer s)) ∧
  dom (intervals s) = match animTimer s with Some t => {[t]} | None => ∅ end.

(** Playback is running: the flag is set and the remembered timer is live. *)
Definition running (s : State) : Prop :=
  isPlaying s = true ∧ ∃ t, animTimer s = Some t ∧ is_Some (intervals s !! t).

Inductive PlaybackCall := CallPlay | CallPause.

Definition call (c : PlaybackCall) (s : State) : State :=
  match c with CallPlay => play s | CallPause => pause s end.

Definition calls (cs : list PlaybackCall) (s : State) : State :=
  fold_left (λ s c, call c s) cs s.

(** ** What the map shows *)

Inductive Rendered := RenderOff | RenderStatic | RenderAnimated | RenderBoth.

Definition shown (layer : option nat) (s : State) : bool :=
  match layer with Some id => hasLayer id s | None => false end.

(** The effective render state: which of the two overlays is on the map. *)
Definition rendered (s : State) : Rendered :=
  match shown (radarLayer s) s, shown (rainLayer s) s with
  | true, false => RenderStatic
  | false, true => RenderAnimated
  | false, false => RenderOff
  | true, true => RenderBoth
  end.

(** The set holding a layer variable's object, if it has one. *)
Definition opt_set (layer : option nat) : gset nat :=
  match layer with Some a => {[a]} | None => ∅ end.

(** The static overlay exists, the two overlays are different objects, and
    the map shows no layer object that is yet to be created. *)
Definition map_ok (s : State) : Prop :=
  (∃ r, radarLayer s = Some r ∧ (r < nextLayer s)%nat ∧ rainLayer s ≠ Some r) ∧
  (∀ a, rainLayer s = Some a → (a < nextLayer s)%nat) ∧
  (∀ i, i ∈ onMap s → (i < nextLayer s)%nat).

(** Every radar frame is a finite number. *)
Definition radar_finite (s : State) : Prop :=
  Forall (λ n, isFinite n = true) (rainFrames s).

(** A refresh whose primary request yields no payload. *)
Definition is_failure (r : Response) : bool :=
  match r with Json _ => false | _ => true end.


(** Clamping into [[lo, hi]]. *)
Definition clamp (lo hi n : Z) : Z := Z.max lo (Z.min hi n).

(** ** Text *)

(** Every character of a text is a decimal digit; some character is. *)
Fixpoint all_digits (s : string) : bool :=
  match s with
  | EmptyString => true
  | String c s' => is_digit c && all_digits s'
  end.

Fixpoint has_digit (s : string) : bool :=
  match s with
  | EmptyString => false
  | String c s' => is_digit c || has_digit s'
  end.

(** The numbers that the runs of digits of a text denote. *)
Definition run_values (s : string) : list Z :=
  (λ n, default 0%Z (parseInt n)) <$> match_digits s "".

(** A wind speed as the forecast gives it: one speed, or a range. *)
Definition speed_text (a : N) : string := pretty a +:+ " mph".

Definition range_text (a b : N) : string :=
  pretty a +:+ " to " +:+ pretty b +:+ " mph".

(** ** Overlay objects *)









Definition opacity_set (v : Z) (l : TileLayer) : TileLayer :=
  mkTileLayer (url l) v (zIndex l) (tileSize l) (zoomOffset l) (attribution l).

Definition overlay_created (u : string) (s : State) : State :=
  let '(id', s0) := tileLayer (animated_opts u s) s in
  let s1 := set_rainLayer (Some id') s0 in
  if wants_animation (currentMode s1) then addTo id' s1 else s1.

(** The index [showFrame(i)] stores. *)
Definition wrapped (i : Z) (s : State) : Z :=
  rem (i + Z.of_nat (length (active_frames s)))
    (Z.of_nat (length (active_frames s))).

(** The four outcomes of [showFrame]. *)
Inductive showFrame_outcome (i : Z) (s : State) : State → Prop :=
  | outcome_no_frames :
      active_frames s = [] → showFrame_outcome i s s
  | outcome_no_token :
      active_frames s ≠ [] →
      getFrameToken (nth (active_frames s) (wrapped i s)) (currentLayerType s)
      = None →
      showFrame_outcome i s (set_frameIndex (wrapped i s) s)
  | outcome_url_set token a :
      active_frames s ≠ [] →
      getFrameToken (nth (active_frames s) (wrapped i s)) (currentLayerType s)
      = Some token →
      rainLayer s = Some a → a ∈ onMap s →
      showFrame_outcome i s
        (setUrl a (rvFrameUrl token (TILE_SIZE s) (currentLayerType s))
           (set_frameIndex (wrapped i s) s))
  | outcome_created token :
      active_frames s ≠ [] →
      getFrameToken (nth (active_frames s) (wrapped i s)) (currentLayerType s)
      = Some token →
      shown (rainLayer s) s = false →
      showFrame_outcome i s
        (overlay_created (rvFrameUrl token (TILE_SIZE s) (currentLayerType s))
           (set_frameIndex (wrapped i s) s)).

(** ** Settings and frame lists *)

Definition settings_ok (s : State) : Prop :=
  (120 ≤ FRAME_INTERVAL s ≤ 800)%Z ∧
  (TILE_SIZE s = 256%Z ∨ TILE_SIZE s = 512%Z) ∧
  (20 ≤ LAYER_OPACITY s ≤ 100)%Z.

(** Every live timer was started with the current frame interval. *)
Definition delay_ok (s : State) : Prop :=
  ∀ t d, intervals s !! t = Some d → d = FRAME_INTERVAL s.

(** A list of satellite frames as the extraction leaves it. *)
Definition sat_ok (l : list SatFrame) : Prop :=
  NoDup (path <$> l) ∧ Forall (λ f, path f ≠ "") l ∧
  StronglySorted (key_le time_of) l.

(** The frame lists as the normaliser leaves them, whatever the feeds
    held. *)
Definition frames_ok (s : State) : Prop :=
  (∃ times, rainFrames s = Fin <$> times ∧ StronglySorted Z.le times) ∧
  (length (rainFrames s) ≤ 60)%nat ∧
  NoDup (path <$> satelliteFrames s) ∧
  Forall (λ f, path f ≠ "") (satelliteFrames s) ∧
  StronglySorted (key_le time_of) (satelliteFrames s) ∧
  (length (satelliteFrames s) ≤ 60)%nat.





(** ** Checkers and sample states *)

Definition map_okb (s : State) : bool :=
  match radarLayer s with
  | Some r => (r <? nextLayer s)%nat && negb (bool_decide (rainLayer s = Some r))
  | None => false
  end
  && match rainLayer s with Some a => (a <? nextLayer s)%nat | None => true end
  && forallb (λ i, (i <? nextLayer s)%nat) (elements (onMap s)).

Definition timer_okb (s : State) : bool :=
  bool_decide (isPlaying s = bool_decide (is_Some (animTimer s)))
  && bool_decide
       (dom (intervals s) = match animTimer s with Some t => {[t]} | None => ∅ end).

(** A string grammar under which no text denotes a number; the sample
    payloads carry numbers only. *)
Definition sample_coercions : Coercions :=
  {| StringToNumber := λ _, NaN; ObjectToString := λ _, "" |}.

Definition sample_satellite : value :=
  VObj [("infrared",
         VArr [path_record "a" 5; path_record "b" 3; path_record "a" 1])].

Definition sample_payload : value :=
  VObj [("radar", VObj [("past", VArr (time_record <$> [100; 200; 300]%Z));
                        ("nowcast", VArr [time_record 400])]);
        ("satellite", sample_satellite)].


(** The page after [initMap] on a desktop without a memory hint; after a
    first refresh that finds frames; with playback started; after a second
    refresh that finds none; and after a third that finds frames again. *)
Definition started : State := initial false None.

Definition animating : State :=
  initRadarAnimation (H := sample_coercions) (Json sample_payload) (NotOk 404)
    started.

Definition playing : State := play animating.



(** A session of the page: a refresh that finds frames, playback, a timer
    tick, scrubbing, the HD resolution, the satellite layer and the Static
    mode. *)
Definition session : list Event :=
  [RefreshBtnClick (Json sample_payload) (NotOk 404); PlayBtnClick;
   TimerFires 1; FrameSliderInput "2"; ResHdClick;
   LayerSelectChange "satellite"; ModeClick static].

(** ** Reachable states *)

(** What every state of the running page satisfies. *)
Definition invariant (s : State) : Prop :=
  timer_ok s ∧ map_ok s ∧ radar_finite s ∧ (6 ≤ MAX_FRAMES s ≤ 60)%Z.

(** The states the page can be in: the one [initMap] leaves, and those
    reached from it by the events of the page. *)
Inductive reachable `{Coercions} : State → Prop :=
  | reachable_initial IS_MOBILE deviceMemory :
      reachable (initial IS_MOBILE deviceMemory)
  | reachable_handle e s : reachable s → reachable (handle e s).

(** ** Case analysis over the operations *)

Ltac unfold_ops :=
  unfold setMode, play, pause, showFrame, setRadarOpacity,
    remove_if_shown, add_if_hidden, addTo, removeLayer, setUrl, setOpacity,
    tileLayer, setInterval, clearInterval, hasLayer.

Ltac by_cases :=
  intros; unfold_ops; simpl;
  repeat (case_match; simpl; try done).

(** * Properties *)

(** ** Sorting and slicing *)

Section SortFacts.
Context {A : Type} (gt : A → A → bool) (key : A → Z).
Hypothesis gt_key : ∀ a b, gt a b = (key b <? key a)%Z.

Lemma insert_perm x l : JS.insert gt x l ≡ₚ x :: l.
Proof.
  induction l as [|y l IH]; simpl; [done|].
  destruct (gt x y); [|done].
  rewrite IH. apply Permutation_swap.
Qed.

Lemma sort_perm l : sort gt l ≡ₚ l.
Proof.
  induction l as [|x l IH]; simpl; [done|].
  by rewrite insert_perm, IH.
Qed.

Lemma insert_sorted x l :
  StronglySorted (key_le key) l → StronglySorted (key_le key) (JS.insert gt x l).
Proof.
  induction 1 as [|y l Hl IH Hy]; simpl.
  - repeat constructor.
  - rewrite gt_key. destruct (Z.ltb_spec (key y) (key x)) as [Hlt|Hge].
    + constructor; [done|].
      rewrite insert_perm. constructor; [unfold key_le; lia|done].
    + constructor; [by constructor|].
      constructor; [done|].
      eapply Forall_impl; [exact Hy|]. unfold key_le. intros; simpl in *; lia.
Qed.

Lemma sort_sorted l : StronglySorted (key_le key) (sort gt l).
Proof.
  induction l as [|x l IH]; simpl; [constructor|].
  by apply insert_sorted.
Qed.
End SortFacts.

Lemma sort_fmap {A B} (f : A → B) (gtA : A → A → bool) (gtB : B → B → bool) l :
  (∀ a b, gtB (f a) (f b) = gtA a b) →
  sort gtB (f <$> l) = f <$> sort gtA l.
Proof.
  intros Hf. induction l as [|x l IH]; csimpl; [done|].
  rewrite IH. generalize (sort gtA l). intros l'.
  induction l' as [|y l' IH']; csimpl; [done|].
  rewrite Hf. destruct (gtA x y); csimpl; [by rewrite IH'|done].
Qed.

Lemma slice_neg {A} (n : Z) (l : list A) :
  (1 ≤ n)%Z → slice (- n) l = lastn (Z.to_nat n) l.
Proof.
  intros Hn. unfold slice, lastn.
  destruct (Z.ltb_spec (- n) 0) as [_|?]; [|lia].
  f_equal. lia.
Qed.

Lemma lastn_fmap {A B} (f : A → B) n l : lastn n (f <$> l) = f <$> lastn n l.
Proof. unfold lastn. by rewrite length_fmap, fmap_drop. Qed.

(** ** Radar frames *)

Lemma filter_isFinite l :
  filter (λ n, isFinite n = true) l = Fin <$> finite_values l.
Proof.
  induction l as [|[z| | |] l IH]; simpl; [done|..].
  - rewrite filter_cons_True by done. unfold finite_values in *. simpl. by f_equal.
  - by rewrite filter_cons_False.
  - by rewrite filter_cons_False.
  - by rewrite filter_cons_False.
Qed.

Lemma cmp_num_Fin a b : cmp_num (Fin a) (Fin b) = gtZ a b.
Proof.
  unfold cmp_num, gtZ. simpl.
  destruct (Z.ltb_spec 0 (a - b)), (Z.ltb_spec b a); done || lia.
Qed.

Section RadarFacts.
Context `{Coercions}.

Lemma mapM_records (l : list value) :
  Forall is_record l →
  mapM (λ f, t ← get f "time"; Some (Number t)) l
  = Some ((λ f, Number (record_time f)) <$> l).
Proof.
  induction 1 as [|f l [fs ->] _ IH]; [done|].
  csimpl. by simplify_option_eq.
Qed.

(** What the radar branch computes on a well-formed payload. *)
Lemma radar_frames_records data radarv past nowcast MAX :
  truthy data = true → get data "radar" = Some radarv →
  truthy radarv = true →
  get radarv "past" = Some (VArr past) →
  get radarv "nowcast" = Some (VArr nowcast) →
  Forall is_record (past ++ nowcast) →
  radar_frames data MAX
  = Some (slice (- MAX)
            (Fin <$> sort gtZ
               (finite_values ((λ f, Number (record_time f)) <$> (past ++ nowcast))))).
Proof.
  intros Hd Hr Ht Hp Hn Hrec. unfold radar_frames.
  rewrite Hd, Hr. simpl. rewrite Ht, Hp, Hn. simpl.
  rewrite (mapM_records _ Hrec). simpl.
  rewrite filter_isFinite.
  by rewrite (sort_fmap Fin gtZ cmp_num _ cmp_num_Fin).
Qed.
End RadarFacts.

(** ** Satellite frames *)

(** Induction over payloads: the items of an array and the field values of
    an object are smaller. *)
Lemma value_ind (P : value → Prop) :
  P VUndef → P VNull → (∀ b, P (VBool b)) → (∀ n, P (VNum n)) →
  (∀ s, P (VStr s)) →
  (∀ items, Forall P items → P (VArr items)) →
  (∀ fields, Forall (λ kv, P (snd kv)) fields → P (VObj fields)) →
  ∀ v, P v.
Proof.
  intros Hu Hn Hb Hnum Hs Ha Ho.
  fix IH 1. intros [| |b|n|s|items|fields].
  - exact Hu.
  - exact Hn.
  - apply Hb.
  - apply Hnum.
  - apply Hs.
  - apply Ha. induction items as [|v items IHi]; constructor; [apply IH|exact IHi].
  - apply Ho. induction fields as [|[k v] fields IHf]; constructor;
      [apply IH|exact IHf].
Qed.

Lemma subvalues_self v : v ∈ subvalues v.
Proof. destruct v; simpl; apply list_elem_of_here. Qed.

Lemma subvalues_child v w u : child v w → u ∈ subvalues w → u ∈ subvalues v.
Proof.
  intros Hc Hu. destruct Hc as [items w Hw|fields k w Hw]; simpl;
    apply list_elem_of_further, list_elem_of_In, in_flat_map.
  - exists w. by rewrite <- !list_elem_of_In.
  - exists (k, w). by rewrite <- !list_elem_of_In.
Qed.

Lemma subvalues_nested v w : nested v w → w ∈ subvalues v.
Proof.
  induction 1 as [v|v u w Hc _ IH]; [apply subvalues_self|].
  by eapply subvalues_child.
Qed.

Lemma nested_subvalues v w : w ∈ subvalues v → nested v w.
Proof.
  revert w. induction v as [| | | | |items IH|fields IH] using value_ind;
    intros w Hw; simpl in Hw;
    apply elem_of_cons in Hw as [->|Hw]; try apply rtc_refl;
    try by apply elem_of_nil in Hw.
  - apply list_elem_of_In, in_flat_map in Hw as (u & Hu & Hw).
    apply list_elem_of_In in Hu, Hw.
    eapply rtc_l; [by constructor|].
    rewrite Forall_forall in IH. by apply IH.
  - apply list_elem_of_In, in_flat_map in Hw as ([k u] & Hu & Hw).
    apply list_elem_of_In in Hu, Hw.
    eapply rtc_l; [by econstructor|].
    rewrite Forall_forall in IH. by apply (IH (k, u)).
Qed.

Section SatelliteFacts.
Context `{Coercions}.

Lemma fold_visit_items items frames :
  Forall (λ v, ∀ frames, visit v frames = frames ++ collected v) items →
  fold_left (λ acc v, visit v acc) items frames
  = frames ++ omap frame_of (flat_map subvalues items).
Proof.
  intros Hall. revert frames.
  induction Hall as [|v items Hv _ IH]; intros frames; simpl.
  - by rewrite app_nil_r.
  - rewrite IH, Hv. unfold collected. by rewrite omap_app, app_assoc.
Qed.

Lemma fold_visit_fields (fields : list (string * value)) frames :
  Forall (λ kv, ∀ frames, visit (snd kv) frames = frames ++ collected (snd kv))
    fields →
  fold_left (λ acc kv, visit (snd kv) acc) fields frames
  = frames ++ omap frame_of (flat_map (λ kv, subvalues (snd kv)) fields).
Proof.
  intros Hall. revert frames.
  induction Hall as [|kv fields Hv _ IH]; intros frames; simpl.
  - by rewrite app_nil_r.
  - rewrite IH, Hv. unfold collected. by rewrite omap_app, app_assoc.
Qed.

(** [visit] pushes the frames of the nested objects, in document order. *)
Lemma visit_collected source frames :
  visit source frames = frames ++ collected source.
Proof.
  revert frames.
  induction source as [| |b|n|s|items IH|fields IH] using value_ind;
    intros frames.
  - by rewrite app_nil_r.
  - by rewrite app_nil_r.
  - unfold collected. simpl. rewrite app_nil_r. by destruct b.
  - unfold collected. simpl. rewrite app_nil_r. by destruct n as [z| | |]; [destruct (z =? 0)%Z|..].
  - unfold collected. simpl. rewrite app_nil_r. by destruct (String.eqb s "").
  - change (visit (VArr items) frames)
      with (fold_left (λ acc v, visit v acc) items frames).
    by rewrite fold_visit_items.
  - change (visit (VObj fields) frames)
      with (fold_left (λ acc kv, visit (snd kv) acc) fields
              match match field "path" fields with VStr s => Some s | _ => None end with
              | Some p =>
                if truthy (VStr p)
                then frames ++ [mkSatFrame p
                       (if isFinite (Number (field "time" fields))
                        then Some (Number (field "time" fields)) else None)]
                else frames
              | None => frames
              end).
    rewrite fold_visit_fields by done.
    unfold collected. simpl.
    destruct (field "path" fields) as [| | | |p| |]; try done.
    destruct (decide (p = "")) as [->|Hp]; [done|].
    destruct (String.eqb_spec p ""); [done|]. simpl.
    rewrite <- app_assoc. simpl.
    by destruct (Number (field "time" fields)).
Qed.

Lemma collected_path_nonempty source f : f ∈ collected source → path f ≠ "".
Proof.
  unfold collected. rewrite list_elem_of_omap. intros (v & _ & Hv).
  destruct v as [| | | | | |fields]; try done. simpl in Hv.
  destruct (field "path" fields); try done.
  destruct (decide _); [done|]. by injection Hv as <-.
Qed.
End SatelliteFacts.

(** ** Deduplication by path *)

Lemma first_occurrence_nil f : ¬ first_occurrence f [].
Proof. by intros (i & Hi & _). Qed.

Lemma first_occurrence_cons f g l :
  first_occurrence f (g :: l)
  ↔ f = g ∨ (path g ≠ path f ∧ first_occurrence f l).
Proof.
  split.
  - intros ([|i] & Hi & Hfirst).
    + left. by injection Hi.
    + right. split.
      * apply (Hfirst 0%nat); [lia|done].
      * exists i. split; [done|]. intros j h Hj Hh.
        apply (Hfirst (S j)); [lia|done].
  - intros [->|(Hne & i & Hi & Hfirst)].
    + exists 0%nat. split; [done|]. intros; lia.
    + exists (S i). split; [done|]. intros [|j] h Hj Hh.
      * by injection Hh as <-.
      * apply (Hfirst j); [lia|done].
Qed.

Lemma first_occurrence_exists l f :
  f ∈ l → ∃ g, first_occurrence g l ∧ path g = path f.
Proof.
  induction l as [|h l IH]; [by intros ?%elem_of_nil|].
  intros Hf. destruct (decide (path h = path f)) as [Hh|Hh].
  - exists h. split; [|done]. apply first_occurrence_cons. by left.
  - apply elem_of_cons in Hf as [->|Hf]; [done|].
    destruct (IH Hf) as (g & Hg & Hp). exists g. split; [|done].
    apply first_occurrence_cons. right. split; [congruence|done].
Qed.

Lemma fold_dedupe_step l seen out :
  snd (fold_left dedupe_step l (seen, out)) = out ++ dedupe_from seen l.
Proof.
  revert seen out. induction l as [|f l IH]; intros seen out; simpl.
  - by rewrite app_nil_r.
  - destruct (negb _ || _); [apply IH|].
    rewrite IH. by rewrite <- app_assoc.
Qed.

Lemma dedupe_dedupe_from l : dedupe l = dedupe_from ∅ l.
Proof. unfold dedupe. by rewrite fold_dedupe_step. Qed.

Lemma skip_test f (seen : gset string) :
  negb (truthy (VStr (path f))) || bool_decide (path f ∈ seen) = true
  ↔ path f = "" ∨ path f ∈ seen.
Proof.
  simpl. rewrite orb_true_iff, negb_true_iff, negb_false_iff, bool_decide_eq_true.
  by destruct (String.eqb_spec (path f) ""); split; intros [?|?]; auto.
Qed.

Lemma elem_of_dedupe_from (seen : gset string) l f :
  f ∈ dedupe_from seen l
  ↔ path f ≠ "" ∧ (path f ∉ seen) ∧ first_occurrence f l.
Proof.
  revert seen. induction l as [|g l IH]; intros seen; cbn [dedupe_from].
  - split; [by intros Hf%elem_of_nil|].
    intros (_ & _ & Hf). by apply first_occurrence_nil in Hf.
  - rewrite first_occurrence_cons.
    destruct (negb _ || _) eqn:Hskip.
    + apply skip_test in Hskip. rewrite IH.
      split; [|intros (? & ? & [->|[? ?]]); [by destruct Hskip|done]].
      intros (Hne & Hseen & Hf). repeat split; [done..|].
      right. split; [|done]. intros Heq. rewrite Heq in Hskip. by destruct Hskip.
    + assert (¬ (path g = "" ∨ path g ∈ seen)) as Hkeep.
      { rewrite <- skip_test. by rewrite Hskip. }
      rewrite elem_of_cons, IH, not_elem_of_union, elem_of_singleton. split.
      * intros [->|(Hne & [Hg Hseen] & Hf)]; [by auto 6|].
        repeat split; [done..|]. right. split; [congruence|done].
      * intros (Hne & Hseen & [->|[Hg Hf]]); [by left|].
        right. repeat split; [done|congruence|done..].
Qed.

Lemma dedupe_from_NoDup seen l : NoDup (path <$> dedupe_from seen l).
Proof.
  revert seen. induction l as [|g l IH]; intros seen; simpl; [constructor|].
  destruct (negb _ || _); [apply IH|].
  csimpl. constructor; [|apply IH].
  intros (f & Hp & Hf)%list_elem_of_fmap.
  apply elem_of_dedupe_from in Hf as (_ & Hseen & _).
  apply Hseen, elem_of_union_l, elem_of_singleton. done.
Qed.

Lemma cmp_time_time_of a b : cmp_time a b = (time_of b <? time_of a)%Z.
Proof.
  assert (∀ c, time_key c = Fin (time_of c)) as Hkey.
  { intros [p [[z| | |]|]]; done. }
  unfold cmp_time. rewrite !Hkey. simpl.
  destruct (Z.ltb_spec 0 (time_of a - time_of b)),
    (Z.ltb_spec (time_of b) (time_of a)); done || lia.
Qed.

Section ExtractFacts.
Context `{Coercions}.

Lemma extract_perm source :
  extractSatelliteFrames source ≡ₚ dedupe_from ∅ (collected source).
Proof.
  unfold extractSatelliteFrames.
  rewrite sort_perm, dedupe_dedupe_from, visit_collected. done.
Qed.

Lemma elem_of_extract source f :
  f ∈ extractSatelliteFrames source ↔ first_occurrence f (collected source).
Proof.
  rewrite extract_perm, elem_of_dedupe_from. split; [by intros (_ & _ & ?)|].
  intros Hf. split; [|split; [apply not_elem_of_empty|done]].
  destruct Hf as (i & Hi & _).
  eapply collected_path_nonempty, list_elem_of_lookup_2, Hi.
Qed.

Lemma extract_NoDup source : NoDup (path <$> extractSatelliteFrames source).
Proof.
  rewrite extract_perm. apply dedupe_from_NoDup.
Qed.

Lemma extract_sorted source :
  StronglySorted (key_le time_of) (extractSatelliteFrames source).
Proof. apply sort_sorted, cmp_time_time_of. Qed.

Lemma extract_complete source o fields p :
  nested source o → o = VObj fields → field "path" fields = VStr p →
  p ≠ "" → ∃ f, f ∈ extractSatelliteFrames source ∧ path f = p.
Proof.
  intros Hn -> Hp Hne. apply subvalues_nested in Hn.
  assert (∃ f, f ∈ collected (source) ∧ path f = p) as (f & Hf & <-).
  { destruct (frame_of (VObj fields)) as [f|] eqn:Hfr.
    - exists f. split; [apply list_elem_of_omap; eauto|].
      simpl in Hfr. rewrite Hp in Hfr. destruct (decide _); [done|].
      by injection Hfr as <-.
    - simpl in Hfr. rewrite Hp in Hfr. by destruct (decide _). }
  destruct (first_occurrence_exists _ _ Hf) as (g & Hg & Hgp).
  exists g. by rewrite elem_of_extract.
Qed.
End ExtractFacts.

(** ** Frames of the engine's state *)

Lemma active_frames_view s s' :
  frames_view s' = frames_view s → active_frames s' = active_frames s.
Proof.
  unfold frames_view, active_frames, frames_of. intros [= -> -> ->]. done.
Qed.

Lemma showFrame_frames i s : frames_view (showFrame i s) = frames_view s.
Proof. by_cases. Qed.
Lemma showFrame_timer i s : timer_view (showFrame i s) = timer_view s.
Proof. by_cases. Qed.
Lemma showFrame_settings i s : settings_view (showFrame i s) = settings_view s.
Proof. by_cases. Qed.
Lemma showFrame_mode i s : currentMode (showFrame i s) = currentMode s.
Proof. by_cases. Qed.

Lemma setMode_frames m s : frames_view (setMode m s) = frames_view s.
Proof. by_cases. Qed.
Lemma setMode_timer m s : timer_view (setMode m s) = timer_view s.
Proof. by_cases. Qed.
Lemma setMode_settings m s : settings_view (setMode m s) = settings_view s.
Proof. by_cases. Qed.
Lemma setMode_frameIndex m s : frameIndex (setMode m s) = frameIndex s.
Proof. by_cases. Qed.
Lemma setMode_mode m s : currentMode (setMode m s) = m.
Proof. by_cases. Qed.

Lemma play_frames s : frames_view (play s) = frames_view s.
Proof. by_cases. Qed.
Lemma play_map s : map_view (play s) = map_view s.
Proof. by_cases. Qed.
Lemma play_frameIndex s : frameIndex (play s) = frameIndex s.
Proof. by_cases. Qed.
Lemma play_settings s : settings_view (play s) = settings_view s.
Proof. by_cases. Qed.

Lemma pause_frames s : frames_view (pause s) = frames_view s.
Proof. by_cases. Qed.
Lemma pause_map s : map_view (pause s) = map_view s.
Proof. by_cases. Qed.
Lemma pause_settings s : settings_view (pause s) = settings_view s.
Proof. by_cases. Qed.

(** ** Circular frame index *)

Lemma showFrame_empty i s : active_frames s = [] → showFrame i s = s.
Proof. intros Hempty. unfold showFrame. by rewrite Hempty. Qed.

Lemma showFrame_frameIndex i s :
  active_frames s ≠ [] →
  frameIndex (showFrame i s)
  = rem (i + Z.of_nat (length (active_frames s)))
      (Z.of_nat (length (active_frames s))).
Proof.
  intros Hne. unfold showFrame.
  destruct (length (active_frames s)) eqn:Hlen;
    [by apply length_zero_iff_nil in Hlen|].
  unfold_ops. simpl. repeat (case_match; simpl; try done).
Qed.

Lemma rem_wrap (i n : Z) :
  (0 < n)%Z → (- n ≤ i)%Z → rem (i + n) n = (i mod n)%Z.
Proof.
  intros Hn Hi. unfold rem.
  rewrite Z.rem_mod_nonneg by lia.
  rewrite <- (Z.mul_1_l n) at 1. by rewrite Z.mod_add by lia.
Qed.

(** ** Resolution changes *)

Lemma rem_in_bounds (i n : Z) : (0 ≤ i < n)%Z → rem (i + n) n = i.
Proof.
  intros Hi. rewrite rem_wrap by lia. by apply Z.mod_small.
Qed.

Lemma showFrame_same_index s :
  active_frames s = [] ∨ in_bounds s →
  frameIndex (showFrame (frameIndex s) s) = frameIndex s.
Proof.
  intros [Hempty|Hin]; [by rewrite showFrame_empty|].
  assert (active_frames s ≠ []) as Hne.
  { unfold in_bounds in Hin. destruct (active_frames s); [simpl in Hin; lia|done]. }
  rewrite showFrame_frameIndex by done. by apply rem_in_bounds.
Qed.

Lemma setResolution_unfold size s :
  setResolution size s
  = let s1 := showFrame (frameIndex (resolution_set size s)) (resolution_set size s) in
    let s2 := setMode (currentMode s1) s1 in
    if isPlaying s then play s2 else s2.
Proof. done. Qed.

Lemma resolution_set_frames size s :
  frames_view (resolution_set size s) = frames_view s.
Proof. unfold resolution_set. by_cases. Qed.

Lemma resolution_set_frameIndex size s :
  frameIndex (resolution_set size s) = frameIndex s.
Proof. unfold resolution_set. by_cases. Qed.

Lemma resolution_set_settings size s :
  TILE_SIZE (resolution_set size s) = size ∧
  FRAME_INTERVAL (resolution_set size s) = (if (size =? 512)%Z then 650 else 450)%Z.
Proof. unfold resolution_set. by_cases. Qed.

Lemma setResolution_frames size s :
  frames_view (setResolution size s) = frames_view s.
Proof.
  rewrite setResolution_unfold. cbv zeta.
  destruct (isPlaying s); rewrite ?play_frames, setMode_frames, showFrame_frames;
    apply resolution_set_frames.
Qed.

Lemma setResolution_settings size s :
  TILE_SIZE (setResolution size s) = size ∧
  FRAME_INTERVAL (setResolution size s) = (if (size =? 512)%Z then 650 else 450)%Z.
Proof.
  pose proof (resolution_set_settings size s) as [Ht Hf].
  rewrite setResolution_unfold. cbv zeta.
  set (s1 := showFrame _ _). set (s2 := setMode _ _).
  assert (settings_view s2 = settings_view (resolution_set size s)) as Hs.
  { subst s2 s1. by rewrite setMode_settings, showFrame_settings. }
  assert (settings_view (if isPlaying s then play s2 else s2)
          = settings_view (resolution_set size s)) as Hs'.
  { destruct (isPlaying s); [by rewrite play_settings|done]. }
  unfold settings_view in Hs'. injection Hs' as _ _ -> _ ->. done.
Qed.

Lemma setResolution_frameIndex size s :
  active_frames s = [] ∨ in_bounds s →
  frameIndex (setResolution size s) = frameIndex s.
Proof.
  intros Hs.
  assert (frameIndex (showFrame (frameIndex (resolution_set size s))
                        (resolution_set size s)) = frameIndex s) as Hidx.
  { rewrite showFrame_same_index; [apply resolution_set_frameIndex|].
    unfold in_bounds.
    rewrite (active_frames_view _ _ (resolution_set_frames size s)).
    by rewrite resolution_set_frameIndex. }
  rewrite setResolution_unfold. cbv zeta.
  destruct (isPlaying s); rewrite ?play_frameIndex, setMode_frameIndex; done.
Qed.

(** C7: whatever the state, [setResolution(256)] sets the frame interval to
    450 ms and [setResolution(512)] sets it to 650 ms; and from a state with
    tile size 256 whose frame index is in bounds (or whose active FrameSet is
    empty), [setResolution(512)] followed by [setResolution(256)] ends with
    frame interval 450, tile size 256 and the frame index it started with. *)
Theorem C7_resolution_round_trip (s : State) :
  TILE_SIZE s = 256%Z →
  active_frames s = [] ∨ in_bounds s →
  let s' := setResolution 256 (setResolution 512 s) in
  (FRAME_INTERVAL s' = 450%Z ∧ TILE_SIZE s' = TILE_SIZE s ∧
   frameIndex s' = frameIndex s) ∧
  (∀ s0, FRAME_INTERVAL (setResolution 256 s0) = 450%Z ∧
         TILE_SIZE (setResolution 256 s0) = 256%Z) ∧
  (∀ s0, FRAME_INTERVAL (setResolution 512 s0) = 650%Z ∧
         TILE_SIZE (setResolution 512 s0) = 512%Z).
Proof.
  intros Hsize Hidx. cbv zeta.
  split; [|split; intros s0].
  - destruct (setResolution_settings 256 (setResolution 512 s)) as [-> ->].
    split; [done|]. split; [done|].
    rewrite setResolution_frameIndex; [by apply setResolution_frameIndex|].
    unfold in_bounds.
    rewrite (active_frames_view _ _ (setResolution_frames 512 s)).
    by rewrite setResolution_frameIndex.
  - by destruct (setResolution_settings 256 s0) as [-> ->].
  - by destruct (setResolution_settings 512 s0) as [-> ->].
Qed.

(** ** Frame display *)

(** C10: while the active layer type's FrameSet is empty, [showFrame(i)]
    returns the state it was given, for every [i]: frame index, overlay
    objects and the layers on the map are all as before. *)
Theorem C10_showFrame_without_frames (i : Z) (s : State) :
  active_frames s = [] →
  showFrame i s = s ∧
  frameIndex (showFrame i s) = frameIndex s ∧
  map_view (showFrame i s) = map_view s.
Proof. intros Hempty. by rewrite showFrame_empty. Qed.

(** C6: with a non-empty active FrameSet of length [N] and the frame index
    in bounds, showing the frame one step forward or backward sets the index
    to [(frameIndex + d) mod N]; forward from [N - 1] gives 0, backward from 0
    gives [N - 1], and the playback timer's callback steps forward. *)
Theorem C6_circular_advance (s : State) (d : Z) :
  active_frames s ≠ [] →
  in_bounds s →
  d = 1%Z ∨ d = (-1)%Z →
  let N := Z.of_nat (length (active_frames s)) in
  frameIndex (showFrame (frameIndex s + d) s) = ((frameIndex s + d) mod N)%Z ∧
  (frameIndex s = (N - 1)%Z → frameIndex (showFrame (frameIndex s + 1) s) = 0%Z) ∧
  (frameIndex s = 0%Z → frameIndex (showFrame (frameIndex s - 1) s) = (N - 1)%Z) ∧
  (∀ t, is_Some (intervals s !! t) →
        frameIndex (on_timer t s) = ((frameIndex s + 1) mod N)%Z).
Proof.
  intros Hne Hin Hd N. unfold in_bounds in Hin. fold N in Hin.
  assert (∀ e, (-1 ≤ e)%Z →
            frameIndex (showFrame (frameIndex s + e) s) = ((frameIndex s + e) mod N)%Z)
    as Hstep.
  { intros e He. rewrite showFrame_frameIndex by done. fold N.
    apply rem_wrap; lia. }
  repeat split.
  - apply Hstep. lia.
  - intros Hlast. rewrite Hstep by lia. rewrite Hlast.
    replace (N - 1 + 1)%Z with (1 * N)%Z by lia. apply Z.mod_mul. lia.
  - intros Hfirst. change (frameIndex s - 1)%Z with (frameIndex s + -1)%Z.
    rewrite (Hstep (-1)%Z) by lia. rewrite Hfirst.
    replace (0 + -1)%Z with (N - 1 + (-1) * N)%Z by lia.
    rewrite Z.mod_add by lia. apply Z.mod_small. lia.
  - intros t [delay Ht]. unfold on_timer. rewrite Ht. apply Hstep. lia.
Qed.

(** ** Playback timer *)

Lemma timer_ok_view s s' : timer_view s' = timer_view s → timer_ok s → timer_ok s'.
Proof. unfold timer_view, timer_ok. intros [= -> -> -> _]. done. Qed.

Lemma running_iff s : timer_ok s → running s ↔ isPlaying s = true.
Proof.
  intros [Hflag Hdom]. split; [by intros [? _]|].
  intros Hp. split; [done|].
  destruct (Hflag) as [Hsome _]. destruct (Hsome Hp) as [t Ht].
  exists t. split; [done|]. rewrite Ht in Hdom.
  apply elem_of_dom. rewrite Hdom. by apply elem_of_singleton.
Qed.

Lemma pause_stops s :
  isPlaying (pause s) = false ∧ animTimer (pause s) = None ∧
  intervals (pause s)
  = match animTimer s with Some t => delete t (intervals s) | None => intervals s end ∧
  nextTimer (pause s) = nextTimer s.
Proof. unfold pause. by_cases. Qed.

Lemma pause_timer_ok s : timer_ok s → timer_ok (pause s) ∧ intervals (pause s) = ∅.
Proof.
  intros [Hflag Hdom].
  destruct (pause_stops s) as (Hp & Ht & Hi & _).
  assert (intervals (pause s) = ∅) as Hempty.
  { rewrite Hi. apply dom_empty_iff_L.
    destruct (animTimer s) as [t|]; [|done].
    rewrite dom_delete_L, Hdom. apply difference_diag_L. }
  split; [|done]. split.
  - rewrite Hp, Ht. split; [done|]. by intros [? ?].
  - rewrite Ht, Hempty. apply dom_empty_L.
Qed.

Lemma play_noop s :
  is_Some (animTimer s) ∨ active_frames s = [] → play s = s.
Proof.
  intros Hs. unfold play.
  destruct Hs as [Hsome|Hempty].
  - by rewrite bool_decide_eq_true_2.
  - rewrite Hempty. simpl. by rewrite orb_true_r.
Qed.

Lemma play_starts s :
  animTimer s = None → active_frames s ≠ [] →
  isPlaying (play s) = true ∧ animTimer (play s) = Some (nextTimer s) ∧
  intervals (play s) = <[nextTimer s := FRAME_INTERVAL s]> (intervals s).
Proof.
  intros Hnone Hne. unfold play. rewrite Hnone.
  rewrite bool_decide_eq_false_2 by (by intros [? ?]).
  destruct (active_frames s) eqn:Hfr; [done|]. simpl. done.
Qed.

Lemma play_timer_ok s : timer_ok s → timer_ok (play s).
Proof.
  intros Hok.
  destruct (animTimer s) as [t|] eqn:Ht.
  { rewrite play_noop; [done|]. left. by rewrite Ht. }
  destruct (decide (active_frames s = [])) as [Hempty|Hne].
  { rewrite play_noop; [done|]. by right. }
  destruct (play_starts s Ht Hne) as (Hp & Ht' & Hi).
  destruct Hok as [Hflag Hdom]. rewrite Ht in Hdom.
  apply dom_empty_iff_L in Hdom.
  split.
  - rewrite Hp, Ht'. split; [by eexists|done].
  - rewrite Ht', Hi, Hdom, insert_empty. apply dom_singleton_L.
Qed.

Lemma play_idempotent s : play (play s) = play s.
Proof.
  destruct (animTimer s) as [t|] eqn:Ht.
  { rewrite (play_noop s); [|left; by rewrite Ht].
    apply play_noop. left. by rewrite Ht. }
  destruct (decide (active_frames s = [])) as [Hempty|Hne].
  { rewrite (play_noop s) by (by right). apply play_noop. by right. }
  apply play_noop. left.
  destruct (play_starts s Ht Hne) as (_ & -> & _). by eexists.
Qed.

Lemma pause_idempotent s : pause (pause s) = pause s.
Proof. unfold pause. destruct s. by_cases. Qed.

Lemma timer_ok_count s : timer_ok s → (timer_count s ≤ 1)%nat.
Proof.
  intros [_ Hdom]. unfold timer_count. rewrite <- size_dom, Hdom.
  destruct (animTimer s); [by rewrite size_singleton|by rewrite size_empty; lia].
Qed.

Lemma call_timer_ok c s : timer_ok s → timer_ok (call c s).
Proof.
  destruct c; simpl; [apply play_timer_ok|]. intros Hok.
  by apply pause_timer_ok.
Qed.

Lemma calls_timer_ok cs s : timer_ok s → timer_ok (calls cs s).
Proof.
  revert s. induction cs as [|c cs IH]; intros s Hok; [done|].
  simpl. by apply IH, call_timer_ok.
Qed.

Lemma showFrame_timer_ok i s : timer_ok s → timer_ok (showFrame i s).
Proof. apply timer_ok_view, showFrame_timer. Qed.

Lemma setMode_timer_ok m s : timer_ok s → timer_ok (setMode m s).
Proof. apply timer_ok_view, setMode_timer. Qed.

Lemma setResolution_timer_ok size s : timer_ok s → timer_ok (setResolution size s).
Proof.
  intros Hok. rewrite setResolution_unfold. cbv zeta.
  assert (timer_ok (resolution_set size s)) as Hset.
  { assert (timer_view (resolution_set size s)
            = timer_view (if isPlaying s then pause s else s)) as Hv.
    { unfold resolution_set. by_cases. }
    apply (timer_ok_view _ _ Hv). destruct (isPlaying s); [|done].
    by apply pause_timer_ok. }
  destruct (isPlaying s); [apply play_timer_ok|];
    by apply setMode_timer_ok, showFrame_timer_ok.
Qed.

(** ** Layers on the map *)

Lemma set_onMap_same s : set_onMap (onMap s) s = s.
Proof. by destruct s. Qed.

Lemma remove_if_shown_eq layer s :
  remove_if_shown layer s = set_onMap (onMap s ∖ opt_set layer) s.
Proof.
  unfold remove_if_shown, hasLayer, removeLayer, opt_set.
  destruct layer as [a|].
  - case_bool_decide as Ha; [done|].
    rewrite (difference_disjoint_L (onMap s) {[a]}); [by rewrite set_onMap_same|].
    by apply disjoint_singleton_r.
  - by rewrite difference_empty_L, set_onMap_same.
Qed.

Lemma add_if_hidden_eq layer s :
  add_if_hidden layer s = set_onMap (opt_set layer ∪ onMap s) s.
Proof.
  unfold add_if_hidden, hasLayer, addTo, opt_set.
  destruct layer as [a|].
  - case_bool_decide as Ha; simpl; [|done].
    rewrite (subseteq_union_1_L {[a]} (onMap s)); [by rewrite set_onMap_same|].
    by apply singleton_subseteq_l.
  - by rewrite union_empty_l_L, set_onMap_same.
Qed.

Lemma setMode_eq m s :
  setMode m s
  = set_onMap
      match m with
      | off => (onMap s ∖ opt_set (radarLayer s)) ∖ opt_set (rainLayer s)
      | static => opt_set (radarLayer s) ∪ (onMap s ∖ opt_set (rainLayer s))
      | _ => opt_set (rainLayer s) ∪ (onMap s ∖ opt_set (radarLayer s))
      end (set_currentMode m s).
Proof.
  unfold setMode. cbv zeta.
  destruct m; rewrite ?add_if_hidden_eq, !remove_if_shown_eq; by destruct s.
Qed.

Lemma shown_spec layer s :
  shown layer s = true ↔ ∃ a, layer = Some a ∧ a ∈ onMap s.
Proof.
  unfold shown, hasLayer. destruct layer as [a|].
  - rewrite bool_decide_eq_true. split; [by eauto|by intros (? & [= <-] & ?)].
  - split; [done|by intros (? & ? & _)].
Qed.

Lemma elem_of_opt_set i layer : i ∈ opt_set layer ↔ layer = Some i.
Proof.
  destruct layer as [a|]; simpl.
  - rewrite elem_of_singleton. split; [by intros ->|by intros [= ->]].
  - split; [by intros ?%elem_of_empty|done].
Qed.

Lemma setMode_vars m s :
  radarLayer (setMode m s) = radarLayer s ∧
  rainLayer (setMode m s) = rainLayer s ∧
  nextLayer (setMode m s) = nextLayer s.
Proof. rewrite setMode_eq. by destruct m. Qed.

Lemma setMode_onMap m s i :
  i ∈ onMap (setMode m s)
  ↔ match m with
    | off => i ∈ onMap s ∧ radarLayer s ≠ Some i ∧ rainLayer s ≠ Some i
    | static => radarLayer s = Some i ∨ (i ∈ onMap s ∧ rainLayer s ≠ Some i)
    | _ => rainLayer s = Some i ∨ (i ∈ onMap s ∧ radarLayer s ≠ Some i)
    end.
Proof.
  rewrite setMode_eq.
  destruct m; cbn [onMap set_onMap];
    rewrite ?elem_of_union, !elem_of_difference, !elem_of_opt_set; tauto.
Qed.

Lemma setMode_map_ok m s : map_ok s → map_ok (setMode m s).
Proof.
  intros ((r & Hr & Hlt & Hne) & Hrain & Hmap).
  destruct (setMode_vars m s) as (Hr' & Ha' & Hn').
  unfold map_ok. rewrite Hr', Ha', Hn'. split; [by eauto|]. split; [done|].
  intros i Hi. apply setMode_onMap in Hi.
  assert (radarLayer s = Some i → (i < nextLayer s)%nat) as Hradar by congruence.
  destruct m; first [by apply Hmap, Hi | destruct Hi as [Hi|[Hi _]]; auto].
Qed.

Lemma setMode_static_rendered s :
  map_ok s → rendered (setMode static s) = RenderStatic.
Proof.
  intros ((r & Hr & Hlt & Hne) & _).
  destruct (setMode_vars static s) as (Hr' & Ha' & _).
  assert (shown (radarLayer (setMode static s)) (setMode static s) = true) as Hs.
  { apply shown_spec. exists r. rewrite Hr', setMode_onMap. auto. }
  assert (shown (rainLayer (setMode static s)) (setMode static s) = false) as Ha.
  { apply not_true_is_false. rewrite shown_spec. intros (a & Ha & Hin).
    rewrite Ha' in Ha. apply setMode_onMap in Hin as [Hin|[_ Hin]]; congruence. }
  unfold rendered. by rewrite Hs, Ha.
Qed.


Lemma map_ok_view s s' : map_view s' = map_view s → map_ok s → map_ok s'.
Proof. unfold map_view, map_ok. intros [= -> -> _ -> ->]. done. Qed.


(** A frame at an index within bounds has a token. *)
Lemma token_exists s (i : Z) :
  radar_finite s → (0 ≤ i < Z.of_nat (length (active_frames s)))%Z →
  is_Some (getFrameToken (nth (active_frames s) i) (currentLayerType s)).
Proof.
  intros Hfin Hi. unfold nth.
  destruct (Z.ltb_spec i 0) as [?|_]; [lia|].
  destruct (lookup_lt_is_Some_2 (active_frames s) (Z.to_nat i)) as [fr Hfr]; [lia|].
  rewrite Hfr. unfold active_frames, frames_of in *.
  destruct (currentLayerType s);
    apply list_lookup_fmap_Some in Hfr as (x & -> & Hx); simpl; try done.
  unfold radar_finite in Hfin. rewrite Forall_lookup in Hfin.
  by rewrite (Hfin _ _ Hx).
Qed.

Lemma showFrame_layers i s :
  map_ok s → map_ok (showFrame i s) ∧ radarLayer (showFrame i s) = radarLayer s.
Proof.
  intros ((r & Hr & Hlt & Hne) & Hrain & Hmap).
  unfold showFrame. cbv zeta.
  destruct (length (active_frames s) =? 0)%nat; [by unfold map_ok; eauto 10|].
  destruct (getFrameToken _ _) as [token|]; [|by unfold map_ok; simpl; eauto 10].
  assert (∀ u m, map_ok (let '(id', s0) := tileLayer u (set_frameIndex m s) in
                         if wants_animation (currentMode (set_rainLayer (Some id') s0))
                         then addTo id' (set_rainLayer (Some id') s0)
                         else set_rainLayer (Some id') s0)) as Hnew.
  { intros u m. unfold tileLayer. simpl.
    destruct (wants_animation (currentMode s)); unfold map_ok; simpl;
      (split; [exists r; repeat split; [done|lia|intros [= <-]; lia]|]);
      (split; [intros a [= <-]; lia|]); intros i0 Hi0.
    - apply elem_of_union in Hi0 as [->%elem_of_singleton|Hi0]; [lia|].
      apply Hmap in Hi0. lia.
    - apply Hmap in Hi0. lia. }
  simpl.
  destruct (rainLayer s) as [a|] eqn:Ha.
  - destruct (hasLayer a _) eqn:Hshown.
    + unfold map_ok, setUrl. simpl. rewrite Ha. eauto 10.
    + split; [apply Hnew|]. unfold tileLayer. simpl.
      by destruct (wants_animation (currentMode s)).
  - split; [apply Hnew|]. unfold tileLayer. simpl.
    by destruct (wants_animation (currentMode s)).
Qed.

Lemma showFrame_creates i s :
  radar_finite s →
  (0 ≤ i < Z.of_nat (length (active_frames s)))%Z →
  is_Some (rainLayer (showFrame i s)).
Proof.
  intros Hfin Hi. unfold showFrame. cbv zeta.
  destruct (length (active_frames s)) as [|n] eqn:Hlen; [simpl in Hi; lia|].
  simpl "=?". cbv iota.
  assert (frameIndex (set_frameIndex (rem (i + Z.of_nat (S n)) (Z.of_nat (S n))) s) = i)
    as Hidx by (simpl; apply rem_in_bounds; lia).
  rewrite Hidx.
  destruct (token_exists s i Hfin) as [token Htok]; [by rewrite Hlen|].
  change (active_frames s) with (active_frames s) in Htok.
  simpl. rewrite Htok.
  destruct (rainLayer s) as [a|] eqn:Ha.
  - destruct (hasLayer a _); [unfold setUrl; simpl; by rewrite Ha|].
    unfold tileLayer. simpl. by destruct (wants_animation (currentMode s)).
  - unfold tileLayer. simpl. by destruct (wants_animation (currentMode s)).
Qed.

(** ** Switching the layer type *)

Lemma setLayerType_unfold_raw layerType s :
  setLayerType layerType s
  = let s0 := layer_switched layerType s in
    let frames := frames_of (normalizeLayerType layerType) s0 in
    if (0 <? length frames)%nat then
      let s1 := set_frameIndex (Z.of_nat (length frames) - 1)
                  (set_rainLayer None s0) in
      let s2 := showFrame (frameIndex s1) s1 in
      let s3 := setMode (currentMode s2) s2 in
      if isPlaying s then play s3 else s3
    else if wants_animation (currentMode s0) then setMode static s0
    else
      let s3 := setMode (currentMode s0) s0 in
      if isPlaying s then play s3 else s3.
Proof.
  unfold setLayerType, layer_switched, tileLayer. cbv beta zeta iota.
  reflexivity.
Qed.

Lemma layer_switched_frames layerType s :
  currentLayerType (layer_switched layerType s) = normalizeLayerType layerType ∧
  rainFrames (layer_switched layerType s) = rainFrames s ∧
  satelliteFrames (layer_switched layerType s) = satelliteFrames s ∧
  currentMode (layer_switched layerType s) = currentMode s.
Proof. unfold layer_switched. by_cases. Qed.

Lemma layer_switched_active layerType s :
  active_frames (layer_switched layerType s)
  = frames_of (normalizeLayerType layerType) s.
Proof.
  destruct (layer_switched_frames layerType s) as (Hty & Hr & Hs & _).
  unfold active_frames, frames_of. by rewrite Hty, Hr, Hs.
Qed.

Lemma setLayerType_unfold layerType s :
  setLayerType layerType s
  = let s0 := layer_switched layerType s in
    if (0 <? length (active_frames s0))%nat then
      let s1 := set_frameIndex (Z.of_nat (length (active_frames s0)) - 1)
                  (set_rainLayer None s0) in
      let s2 := showFrame (frameIndex s1) s1 in
      let s3 := setMode (currentMode s2) s2 in
      if isPlaying s then play s3 else s3
    else if wants_animation (currentMode s0) then setMode static s0
    else
      let s3 := setMode (currentMode s0) s0 in
      if isPlaying s then play s3 else s3.
Proof.
  rewrite setLayerType_unfold_raw. cbv zeta.
  assert (frames_of (normalizeLayerType layerType) (layer_switched layerType s)
          = active_frames (layer_switched layerType s)) as ->; [|done].
  unfold active_frames.
  by destruct (layer_switched_frames layerType s) as (-> & _).
Qed.

Lemma layer_switched_timer layerType s :
  timer_view (layer_switched layerType s)
  = timer_view (if isPlaying s then pause s else s).
Proof. unfold layer_switched. by_cases. Qed.

Lemma layer_switched_map_ok layerType s :
  map_ok s →
  map_ok (layer_switched layerType s) ∧
  map_ok (set_rainLayer None (layer_switched layerType s)).
Proof.
  intros Hok.
  assert (map_ok (if isPlaying s then pause s else s)) as Hp.
  { destruct (isPlaying s); [|done]. by apply (map_ok_view _ _ (pause_map s)). }
  unfold layer_switched. cbv zeta.
  generalize dependent (if isPlaying s then pause s else s). clear Hok s.
  intros s ((r & Hr & Hlt & Hne) & Hrain & Hmap).
  rewrite !remove_if_shown_eq. unfold tileLayer, map_ok. simpl.
  assert (∀ i, i ∈ (onMap s ∖ opt_set (radarLayer s)) ∖ opt_set (rainLayer s) →
            (i < S (nextLayer s))%nat) as Hmap'.
  { intros i [[Hi _]%elem_of_difference _]%elem_of_difference.
    apply Hmap in Hi. lia. }
  split; (split; [exists (nextLayer s); repeat split; [lia|]|]).
  - intros Ha. apply Hrain in Ha. lia.
  - split; [|done]. intros a Ha. apply Hrain in Ha. lia.
  - done.
  - split; [done|done].
Qed.

Lemma layer_switched_finite layerType s :
  radar_finite s → radar_finite (layer_switched layerType s).
Proof.
  unfold radar_finite.
  by destruct (layer_switched_frames layerType s) as (_ & -> & _).
Qed.

Lemma layer_switched_settings layerType s :
  settings_view (layer_switched layerType s) = settings_view s.
Proof. unfold layer_switched. by_cases. Qed.

Lemma resolution_set_timer size s :
  timer_view (resolution_set size s)
  = timer_view (if isPlaying s then pause s else s).
Proof. unfold resolution_set. by_cases. Qed.

Lemma resolution_set_MAX_FRAMES size s :
  MAX_FRAMES (resolution_set size s) = MAX_FRAMES s.
Proof. unfold resolution_set. by_cases. Qed.

Lemma resolution_set_map_ok size s : map_ok s → map_ok (resolution_set size s).
Proof.
  intros Hok.
  assert (map_ok (if isPlaying s then pause s else s)) as Hp.
  { destruct (isPlaying s); [|done]. by apply (map_ok_view _ _ (pause_map s)). }
  unfold resolution_set. cbv zeta.
  generalize dependent (if isPlaying s then pause s else s). clear Hok s.
  intros s ((r & Hr & Hlt & Hne) & Hrain & Hmap).
  rewrite remove_if_shown_eq. unfold map_ok. simpl.
  split; [by eauto|]. split; [done|].
  intros i [Hi _]%elem_of_difference. by apply Hmap.
Qed.

Lemma setRadarOpacity_vars v s :
  frames_view (setRadarOpacity v s) = frames_view s ∧
  MAX_FRAMES (setRadarOpacity v s) = MAX_FRAMES s ∧
  radarLayer (setRadarOpacity v s) = radarLayer s ∧
  rainLayer (setRadarOpacity v s) = rainLayer s ∧
  onMap (setRadarOpacity v s) = onMap s ∧
  nextLayer (setRadarOpacity v s) = nextLayer s.
Proof.
  unfold setRadarOpacity, setOpacity. cbv zeta.
  destruct s as [? ? ? ? [r|] [a|]]; done.
Qed.

Opaque layer_switched resolution_set showFrame setMode play pause.

Lemma setLayerType_active layerType s :
  currentLayerType (setLayerType layerType s) = normalizeLayerType layerType ∧
  active_frames (setLayerType layerType s)
  = frames_of (normalizeLayerType layerType) s.
Proof.
  assert (frames_view (setLayerType layerType s)
          = frames_view (layer_switched layerType s)) as Hv.
  { rewrite setLayerType_unfold. cbv zeta.
    generalize (layer_switched layerType s). intros s0.
    destruct (0 <? length (active_frames s0))%nat,
      (wants_animation (currentMode s0)), (isPlaying s);
      by rewrite ?play_frames, ?setMode_frames, ?showFrame_frames. }
  split.
  - unfold frames_view in Hv. injection Hv as -> _ _.
    apply layer_switched_frames.
  - rewrite (active_frames_view _ _ Hv). apply layer_switched_active.
Qed.

Lemma setLayerType_frameIndex layerType s :
  active_frames (setLayerType layerType s) ≠ [] →
  frameIndex (setLayerType layerType s)
  = (Z.of_nat (length (active_frames (setLayerType layerType s))) - 1)%Z.
Proof.
  destruct (setLayerType_active layerType s) as [_ ->].
  rewrite <- layer_switched_active. intros Hne.
  rewrite setLayerType_unfold. cbv zeta.
  generalize dependent (layer_switched layerType s). intros s0 Hne.
  set (N := length (active_frames s0)) in *.
  assert (N ≠ 0)%nat as HN by (subst N; by destruct (active_frames s0)).
  destruct (Nat.ltb_spec 0 N) as [_|?]; [|lia].
  set (s1 := set_frameIndex _ _).
  assert (active_frames s1 = active_frames s0) as Hact by done.
  assert (frameIndex (showFrame (frameIndex s1) s1) = (Z.of_nat N - 1)%Z) as Hidx.
  { rewrite showFrame_same_index; [done|]. right.
    unfold in_bounds. rewrite Hact. fold N. simpl. lia. }
  destruct (isPlaying s); rewrite ?play_frameIndex, setMode_frameIndex; done.
Qed.

Lemma timer_view_proj s s' :
  timer_view s' = timer_view s →
  animTimer s' = animTimer s ∧ isPlaying s' = isPlaying s ∧
  intervals s' = intervals s.
Proof. unfold timer_view. by intros [= -> -> -> _]. Qed.

Lemma layer_switched_paused layerType s :
  isPlaying (layer_switched layerType s) = false ∧
  (isPlaying s = true → animTimer (layer_switched layerType s) = None).
Proof.
  destruct (timer_view_proj _ _ (layer_switched_timer layerType s))
    as (-> & -> & _).
  destruct (isPlaying s) eqn:Hp; [|done].
  by destruct (pause_stops s) as (-> & -> & _).
Qed.

(** [if (wasPlaying) play()] on a paused state. *)
Lemma resume_playing (was : bool) s :
  isPlaying s = false → (was = true → animTimer s = None) →
  isPlaying (if was then play s else s)
  = was && negb (length (active_frames s) =? 0)%nat.
Proof.
  intros Hp Ht. destruct was; [|done]. simpl.
  destruct (decide (active_frames s = [])) as [Hempty|Hne].
  - rewrite play_noop by (by right). by rewrite Hempty.
  - destruct (play_starts s (Ht eq_refl) Hne) as (-> & _).
    by destruct (active_frames s).
Qed.

Lemma setLayerType_playing layerType s :
  isPlaying (setLayerType layerType s)
  = isPlaying s && negb (length (active_frames (setLayerType layerType s)) =? 0)%nat.
Proof.
  destruct (setLayerType_active layerType s) as [_ ->].
  rewrite <- layer_switched_active.
  destruct (layer_switched_paused layerType s) as [Hp Ht].
  rewrite setLayerType_unfold. cbv zeta.
  generalize dependent (layer_switched layerType s). intros s0 Hp Ht.
  assert (∀ s', timer_view s' = timer_view s0 → frames_view s' = frames_view s0 →
            isPlaying (if isPlaying s then play s' else s')
            = isPlaying s && negb (length (active_frames s0) =? 0)%nat) as Hplay.
  { intros s' Hv Hf.
    destruct (timer_view_proj _ _ Hv) as (Ht' & Hp' & _).
    rewrite <- (active_frames_view _ _ Hf).
    apply resume_playing; [by rewrite Hp'|by rewrite Ht'].  }
  destruct (Nat.ltb_spec 0 (length (active_frames s0))) as [Hpos|Hzero].
  - apply Hplay.
    + by rewrite setMode_timer, showFrame_timer.
    + by rewrite setMode_frames, showFrame_frames.
  - assert (length (active_frames s0) = 0)%nat as Hlen by lia.
    destruct (wants_animation (currentMode s0)).
    + destruct (timer_view_proj _ _ (setMode_timer static s0)) as (_ & -> & _).
      rewrite Hp, Hlen. simpl. by rewrite andb_false_r.
    + apply Hplay; [apply setMode_timer|apply setMode_frames].
Qed.

Lemma setLayerType_timer_ok layerType s :
  timer_ok s → timer_ok (setLayerType layerType s).
Proof.
  intros Hok.
  assert (timer_ok (layer_switched layerType s)) as Hs0.
  { apply (timer_ok_view _ _ (layer_switched_timer layerType s)).
    destruct (isPlaying s); [by apply pause_timer_ok|done]. }
  rewrite setLayerType_unfold. cbv zeta.
  generalize dependent (layer_switched layerType s). intros s0 Hs0.
  destruct (0 <? length (active_frames s0))%nat,
    (wants_animation (currentMode s0)), (isPlaying s);
    try apply play_timer_ok; try apply setMode_timer_ok;
    try apply showFrame_timer_ok; done.
Qed.

(** C5: [setLayerType] makes the normalised layer type and its FrameSet the
    active ones; when that FrameSet is non-empty the frame index becomes
    [frameCount - 1]; and, the playback timer being in order before the
    call, playback is running after the call exactly when it was running
    before it and the new FrameSet is non-empty. *)
Theorem C5_layer_switch (layerType : string) (s : State) :
  timer_ok s →
  let s' := setLayerType layerType s in
  let frameCount := Z.of_nat (length (active_frames s')) in
  active_frames s' = frames_of (normalizeLayerType layerType) s ∧
  (active_frames s' ≠ [] → frameIndex s' = (frameCount - 1)%Z) ∧
  (running s' ↔ running s ∧ active_frames s' ≠ []) ∧
  timer_ok s'.
Proof.
  intros Hok s' frameCount.
  pose proof (setLayerType_timer_ok layerType s Hok) as Hok'.
  split; [apply setLayerType_active|].
  split; [apply setLayerType_frameIndex|].
  split; [|done].
  rewrite !running_iff by done. subst s'.
  rewrite setLayerType_playing, andb_true_iff, negb_true_iff.
  destruct (active_frames (setLayerType layerType s)); simpl;
    split; intros [? ?]; done.
Qed.

(** ** Resolving the Auto mode *)


Lemma sort_Forall {A} (gt : A → A → bool) (P : A → Prop) l :
  Forall P l → Forall P (sort gt l).
Proof. intros Hl. by rewrite sort_perm. Qed.

Lemma slice_Forall {A} (P : A → Prop) start (l : list A) :
  Forall P l → Forall P (slice start l).
Proof. intros Hl. unfold slice. by apply Forall_drop. Qed.

Section RefreshFacts.
Context `{Coercions}.

Lemma radar_frames_finite data MAX frames :
radar_frames data MAX = Some frames → Forall (λ n, isFinite n = true) frames.
Proof.
assert (∀ l, Forall (λ n, isFinite n = true)
               (slice (- MAX) (sort cmp_num (filter (λ n, isFinite n = true) l))))
  as Hfin.
{ intros l. apply slice_Forall, sort_Forall, Forall_forall.
  by intros n [? _]%list_elem_of_filter. }
unfold radar_frames. intros Hr.
destruct (if truthy data then get data "radar" else Some VUndef) as [radarv|];
  [|done].
simpl in Hr. destruct (truthy radarv).
- destruct (get radarv "past") as [pastv|]; [|done]. simpl in Hr.
  destruct (get radarv "nowcast") as [nowcv|]; [|done]. simpl in Hr.
  destruct (mapM _ _) as [times|]; [|done]. simpl in Hr.
  injection Hr as <-. apply Hfin.
- destruct data; injection Hr as <-; try constructor. apply Hfin.
Qed.

Lemma initRadarAnimation_unfold data satelliteRes frames s :
radar_frames data (MAX_FRAMES s) = Some frames →
initRadarAnimation (Json data) satelliteRes s
= let s0 := refreshed data satelliteRes frames s in
  if (0 <? length (active_frames s0))%nat then
    let s1 := showFrame (Z.of_nat (length (active_frames s0)) - 1) s0 in
    let s2 := setMode (currentMode s1) s1 in
    match radarLayer s2 with
    | Some id =>
      if hasLayer id s2 && wants_animation (currentMode s2)
      then removeLayer id s2 else s2
    | None => s2
    end
  else setMode static s0.
Proof. intros Hr. unfold initRadarAnimation. by rewrite Hr. Qed.

Lemma initRadarAnimation_failure radarRes satelliteRes s :
is_failure radarRes = true →
initRadarAnimation radarRes satelliteRes s = setMode static s.
Proof. by destruct radarRes. Qed.

Lemma initRadarAnimation_frames data satelliteRes frames s :
radar_frames data (MAX_FRAMES s) = Some frames →
frames_view (initRadarAnimation (Json data) satelliteRes s)
= frames_view (refreshed data satelliteRes frames s).
Proof.
intros Hr. rewrite (initRadarAnimation_unfold _ _ _ _ Hr). cbv zeta.
set (s0 := refreshed _ _ _ _).
destruct (0 <? _)%nat; [|apply setMode_frames].
set (s2 := setMode _ _).
assert (frames_view s2 = frames_view s0) as <-.
{ subst s2. by rewrite setMode_frames, showFrame_frames. }
destruct (radarLayer s2); [|done]. by destruct (_ && _).
Qed.

End RefreshFacts.

(** ** The timer under every event *)

Lemma setRadarOpacity_timer v s : timer_view (setRadarOpacity v s) = timer_view s.
Proof.
  unfold setRadarOpacity, setOpacity. cbv zeta.
  destruct s as [? ? ? ? [r|] [a|]]; done.
Qed.

Section EventFacts.
Context `{Coercions}.

Lemma initRadarAnimation_timer radarRes satelliteRes s :
timer_view (initRadarAnimation radarRes satelliteRes s) = timer_view s.
Proof.
destruct radarRes as [| | |data];
  try (rewrite initRadarAnimation_failure by done; apply setMode_timer).
destruct (radar_frames data (MAX_FRAMES s)) as [frames|] eqn:Hr.
- rewrite (initRadarAnimation_unfold _ _ _ _ Hr). cbv zeta.
  assert (timer_view (refreshed data satelliteRes frames s) = timer_view s)
    as <- by done.
  generalize (refreshed data satelliteRes frames s). intros s0.
  destruct (0 <? _)%nat; [|apply setMode_timer].
  set (s2 := setMode _ _).
  assert (timer_view s2 = timer_view s0) as <-.
  { subst s2. by rewrite setMode_timer, showFrame_timer. }
  destruct (radarLayer s2); [|done]. by destruct (_ && _).
- unfold initRadarAnimation. rewrite Hr. apply setMode_timer.
Qed.

Lemma handle_timer_ok e s : timer_ok s → timer_ok (handle e s).
Proof.
intros Hok. destruct e; simpl.
- by apply setLayerType_timer_ok.
- unfold on_playBtn_click. destruct (isPlaying s);
    [by apply pause_timer_ok|by apply play_timer_ok].
- unfold on_frameSlider_input. by apply showFrame_timer_ok, pause_timer_ok.
- by apply (timer_ok_view s).
- apply (timer_ok_view _ _ (initRadarAnimation_timer _ _ _)).
  by apply pause_timer_ok.
- unfold on_speedSlider_input. cbv zeta.
  set (s1 := set_FRAME_INTERVAL _ s).
  assert (timer_ok s1) as Hs1 by (by apply (timer_ok_view s)).
  destruct (isPlaying s1); [|done]. by apply play_timer_ok, pause_timer_ok.
- unfold on_opacitySlider_input.
  by apply (timer_ok_view _ _ (setRadarOpacity_timer _ _)).
- by apply setResolution_timer_ok.
- by apply setResolution_timer_ok.
- by apply setMode_timer_ok.
- by apply (timer_ok_view _ _ (initRadarAnimation_timer _ _ _)).
- unfold on_timer. destruct (intervals s !! id); [|done].
  by apply showFrame_timer_ok.
Qed.

Lemma run_timer_ok es s : timer_ok s → timer_ok (run es s).
Proof.
revert s. induction es as [|e es IH]; intros s Hok; [done|].
simpl. by apply IH, handle_timer_ok.
Qed.

(** C9: the playback timer being in order, [play()] does nothing when
  playback is running or the active FrameSet is empty, [pause()] leaves no
  live timer, both are idempotent, and after any sequence of [play()] and
  [pause()] calls, and after any sequence of events of the page, at most
  one recurring timer is live. *)
Theorem C9_single_timer (s : State) :
timer_ok s →
(running s ∨ active_frames s = [] → play s = s) ∧
(animTimer (pause s) = None ∧ timer_count (pause s) = 0%nat) ∧
play (play s) = play s ∧
pause (pause s) = pause s ∧
(∀ cs, (timer_count (calls cs s) ≤ 1)%nat) ∧
(∀ es, (timer_count (run es s) ≤ 1)%nat).
Proof.
intros Hok. repeat split.
- intros [(_ & t & Ht & _)|Hempty]; apply play_noop; [left|by right].
  by rewrite Ht.
- apply pause_stops.
- unfold timer_count. destruct (pause_timer_ok s Hok) as [_ ->].
  apply map_size_empty.
- apply play_idempotent.
- apply pause_idempotent.
- intros cs. by apply timer_ok_count, calls_timer_ok.
- intros es. by apply timer_ok_count, run_timer_ok.
Qed.
End EventFacts.

(** ** Checking the invariants of a concrete state *)

Lemma map_ok_check s : map_okb s = true → map_ok s.
Proof.
  unfold map_okb, map_ok. intros Hb.
  apply andb_prop in Hb as [[Hr Ha]%andb_prop Hm].
  destruct (radarLayer s) as [r|]; [|done].
  apply andb_prop in Hr as [Hlt Hne].
  apply Nat.ltb_lt in Hlt. apply negb_true_iff, bool_decide_eq_false in Hne.
  split; [by eauto|]. split.
  - intros a Hrain. rewrite Hrain in Ha. by apply Nat.ltb_lt.
  - intros i Hi. rewrite forallb_forall in Hm.
    apply Nat.ltb_lt, Hm, list_elem_of_In, elem_of_elements, Hi.
Qed.

Lemma timer_ok_check s : timer_okb s = true → timer_ok s.
Proof.
  unfold timer_okb, timer_ok. intros [Hp Hd%bool_decide_eq_true]%andb_prop.
  apply bool_decide_eq_true in Hp. split; [|done].
  rewrite Hp. apply bool_decide_eq_true.
Qed.

Lemma radar_finite_check s : forallb isFinite (rainFrames s) = true → radar_finite s.
Proof.
  unfold radar_finite. rewrite forallb_forall, Forall_forall.
  intros Hall n Hn. by apply Hall, list_elem_of_In.
Qed.

(** ** Invariants of the running page *)

Lemma settings_view_MAX_FRAMES s s' :
  settings_view s' = settings_view s → MAX_FRAMES s' = MAX_FRAMES s.
Proof. unfold settings_view. by intros [= _ -> _ _ _]. Qed.

Lemma radar_finite_view s s' :
  frames_view s' = frames_view s → radar_finite s → radar_finite s'.
Proof. unfold frames_view, radar_finite. by intros [= _ -> _]. Qed.

Lemma play_map_ok s : map_ok s → map_ok (play s).
Proof. apply map_ok_view, play_map. Qed.

Lemma pause_map_ok s : map_ok s → map_ok (pause s).
Proof. apply map_ok_view, pause_map. Qed.

Lemma showFrame_map_ok i s : map_ok s → map_ok (showFrame i s).
Proof. intros Hok. by apply showFrame_layers. Qed.

Lemma setLayerType_map_ok layerType s : map_ok s → map_ok (setLayerType layerType s).
Proof.
  intros Hok. destruct (layer_switched_map_ok layerType s Hok) as [Hok0 Hok1].
  rewrite setLayerType_unfold. cbv zeta.
  generalize dependent (layer_switched layerType s). intros s0 Hok0 Hok1.
  destruct (0 <? length (active_frames s0))%nat,
    (wants_animation (currentMode s0)), (isPlaying s);
    try apply play_map_ok; apply setMode_map_ok; try done;
    by apply showFrame_map_ok.
Qed.

Lemma setLayerType_MAX_FRAMES layerType s :
  MAX_FRAMES (setLayerType layerType s) = MAX_FRAMES s.
Proof.
  rewrite <- (settings_view_MAX_FRAMES _ _ (layer_switched_settings layerType s)).
  apply settings_view_MAX_FRAMES.
  rewrite setLayerType_unfold. cbv zeta.
  generalize (layer_switched layerType s). intros s0.
  destruct (0 <? length (active_frames s0))%nat,
    (wants_animation (currentMode s0)), (isPlaying s);
    by rewrite ?play_settings, ?setMode_settings, ?showFrame_settings.
Qed.

Lemma setLayerType_finite layerType s :
  radar_finite s → radar_finite (setLayerType layerType s).
Proof.
  intros Hfin. apply (layer_switched_finite layerType) in Hfin.
  revert Hfin. apply radar_finite_view.
  rewrite setLayerType_unfold. cbv zeta.
  generalize (layer_switched layerType s). intros s0.
  destruct (0 <? length (active_frames s0))%nat,
    (wants_animation (currentMode s0)), (isPlaying s);
    by rewrite ?play_frames, ?setMode_frames, ?showFrame_frames.
Qed.

Lemma setResolution_map_ok size s : map_ok s → map_ok (setResolution size s).
Proof.
  intros Hok%(resolution_set_map_ok size). rewrite setResolution_unfold. cbv zeta.
  generalize dependent (resolution_set size s). intros s0 Hok.
  destruct (isPlaying s); try apply play_map_ok;
    by apply setMode_map_ok, showFrame_map_ok.
Qed.

Lemma setResolution_MAX_FRAMES size s :
  MAX_FRAMES (setResolution size s) = MAX_FRAMES s.
Proof.
  rewrite <- (resolution_set_MAX_FRAMES size s).
  apply settings_view_MAX_FRAMES.
  rewrite setResolution_unfold. cbv zeta.
  generalize (resolution_set size s). intros s0.
  destruct (isPlaying s);
    by rewrite ?play_settings, ?setMode_settings, ?showFrame_settings.
Qed.

Section Invariants.
Context `{Coercions}.

Lemma initRadarAnimation_map_ok radarRes satelliteRes s :
  map_ok s → map_ok (initRadarAnimation radarRes satelliteRes s).
Proof.
  intros Hok.
  destruct radarRes as [| | |data];
    try (rewrite initRadarAnimation_failure by done; by apply setMode_map_ok).
  destruct (radar_frames data (MAX_FRAMES s)) as [frames|] eqn:Hr.
  - rewrite (initRadarAnimation_unfold _ _ _ _ Hr). cbv zeta.
    assert (map_ok (refreshed data satelliteRes frames s)) as Hok0 by done.
    generalize dependent (refreshed data satelliteRes frames s). intros s0 Hok0.
    destruct (0 <? _)%nat; [|by apply setMode_map_ok].
    set (s2 := setMode _ _).
    assert (map_ok s2) as Hs2 by (by apply setMode_map_ok, showFrame_map_ok).
    destruct (radarLayer s2) as [r|] eqn:Hrad; [|done].
    destruct (_ && _); [|done].
    destruct Hs2 as ((r' & Hr' & Hlt & Hne) & Hrain & Hmap).
    unfold map_ok, removeLayer. simpl.
    split; [by eauto|]. split; [done|].
    intros i [Hi _]%elem_of_difference. by apply Hmap.
  - unfold initRadarAnimation. rewrite Hr. by apply setMode_map_ok.
Qed.

Lemma initRadarAnimation_MAX_FRAMES radarRes satelliteRes s :
  MAX_FRAMES (initRadarAnimation radarRes satelliteRes s) = MAX_FRAMES s.
Proof.
  destruct radarRes as [| | |data];
    try (rewrite initRadarAnimation_failure by done;
         apply settings_view_MAX_FRAMES, setMode_settings).
  destruct (radar_frames data (MAX_FRAMES s)) as [frames|] eqn:Hr.
  - rewrite (initRadarAnimation_unfold _ _ _ _ Hr). cbv zeta.
    assert (MAX_FRAMES (refreshed data satelliteRes frames s) = MAX_FRAMES s)
      as <- by done.
    generalize (refreshed data satelliteRes frames s). intros s0.
    destruct (0 <? _)%nat; [|apply settings_view_MAX_FRAMES, setMode_settings].
    set (s2 := setMode _ _).
    assert (MAX_FRAMES s2 = MAX_FRAMES s0) as <-.
    { apply settings_view_MAX_FRAMES. subst s2.
      by rewrite setMode_settings, showFrame_settings. }
    destruct (radarLayer s2); [|done]. by destruct (_ && _).
  - unfold initRadarAnimation. rewrite Hr.
    apply settings_view_MAX_FRAMES, setMode_settings.
Qed.

Lemma initRadarAnimation_finite radarRes satelliteRes s :
  radar_finite s → radar_finite (initRadarAnimation radarRes satelliteRes s).
Proof.
  intros Hfin.
  destruct radarRes as [| | |data];
    try (rewrite initRadarAnimation_failure by done;
         by apply (radar_finite_view _ _ (setMode_frames static s))).
  destruct (radar_frames data (MAX_FRAMES s)) as [frames|] eqn:Hr.
  - apply (radar_finite_view _ _ (initRadarAnimation_frames _ satelliteRes _ _ Hr)).
    unfold radar_finite. simpl. by eapply radar_frames_finite.
  - unfold initRadarAnimation. rewrite Hr.
    by apply (radar_finite_view _ _ (setMode_frames static s)).
Qed.

Lemma initial_invariant IS_MOBILE deviceMemory :
  invariant (initial IS_MOBILE deviceMemory).
Proof.
  split; [|split; [|split]].
  - by apply timer_ok_check.
  - by apply map_ok_check.
  - constructor.
  - simpl. unfold recommended_max_frames.
    destruct IS_MOBILE; [lia|]. repeat case_match; lia.
Qed.

Lemma handle_invariant e s : invariant s → invariant (handle e s).
Proof.
  intros (Ht & Hm & Hf & Hcap).
  split; [by apply handle_timer_ok|].
  destruct e as [v| |v|v|r1 r2|v|v| | |m|r1 r2|id]; simpl.
  - split; [by apply setLayerType_map_ok|].
    split; [by apply setLayerType_finite|by rewrite setLayerType_MAX_FRAMES].
  - unfold on_playBtn_click. destruct (isPlaying s).
    + split; [by apply pause_map_ok|].
      split; [by apply (radar_finite_view _ _ (pause_frames s))|].
      by rewrite (settings_view_MAX_FRAMES _ _ (pause_settings s)).
    + split; [by apply play_map_ok|].
      split; [by apply (radar_finite_view _ _ (play_frames s))|].
      by rewrite (settings_view_MAX_FRAMES _ _ (play_settings s)).
  - unfold on_frameSlider_input.
    split; [by apply showFrame_map_ok, pause_map_ok|]. split.
    + apply (radar_finite_view _ _ (showFrame_frames _ _)).
      by apply (radar_finite_view _ _ (pause_frames s)).
    + rewrite (settings_view_MAX_FRAMES _ _ (showFrame_settings _ _)).
      by rewrite (settings_view_MAX_FRAMES _ _ (pause_settings s)).
  - unfold on_maxFrames_input. split; [done|]. split; [done|]. simpl. lia.
  - split; [by apply initRadarAnimation_map_ok, pause_map_ok|]. split.
    + apply initRadarAnimation_finite.
      by apply (radar_finite_view _ _ (pause_frames s)).
    + rewrite initRadarAnimation_MAX_FRAMES.
      by rewrite (settings_view_MAX_FRAMES _ _ (pause_settings s)).
  - unfold on_speedSlider_input. cbv zeta.
    set (s1 := set_FRAME_INTERVAL _ s).
    assert (map_ok s1 ∧ radar_finite s1 ∧ (6 ≤ MAX_FRAMES s1 ≤ 60)%Z)
      as (Hm1 & Hf1 & Hcap1) by done.
    destruct (isPlaying s1); [|done].
    split; [by apply play_map_ok, pause_map_ok|]. split.
    + apply (radar_finite_view _ _ (play_frames _)).
      by apply (radar_finite_view _ _ (pause_frames _)).
    + rewrite (settings_view_MAX_FRAMES _ _ (play_settings _)).
      by rewrite (settings_view_MAX_FRAMES _ _ (pause_settings _)).
  - unfold on_opacitySlider_input.
    destruct (setRadarOpacity_vars
                (Z.max 20 (Z.min 100 (or_default (parseInt v) 60))) s)
      as (Hfv & HM & Hr & Ha & Ho & Hn).
    split; [|split; [by apply (radar_finite_view _ _ Hfv)|by rewrite HM]].
    unfold map_ok. by rewrite Hr, Ha, Ho, Hn.
  - split; [by apply setResolution_map_ok|].
    split; [by apply (radar_finite_view _ _ (setResolution_frames _ _))|].
    by rewrite setResolution_MAX_FRAMES.
  - split; [by apply setResolution_map_ok|].
    split; [by apply (radar_finite_view _ _ (setResolution_frames _ _))|].
    by rewrite setResolution_MAX_FRAMES.
  - split; [by apply setMode_map_ok|].
    split; [by apply (radar_finite_view _ _ (setMode_frames _ _))|].
    by rewrite (settings_view_MAX_FRAMES _ _ (setMode_settings _ _)).
  - split; [by apply initRadarAnimation_map_ok|].
    split; [by apply initRadarAnimation_finite|].
    by rewrite initRadarAnimation_MAX_FRAMES.
  - unfold on_timer. destruct (intervals s !! id); [|done].
    split; [by apply showFrame_map_ok|].
    split; [by apply (radar_finite_view _ _ (showFrame_frames _ _))|].
    by rewrite (settings_view_MAX_FRAMES _ _ (showFrame_settings _ _)).
Qed.

(** Every state the page reaches has its playback timer and its layers in
    order, finite radar frames and a frame cap within [[6, 60]]. *)
Lemma reachable_invariant s : reachable s → invariant s.
Proof.
  induction 1 as [m d|e s _ IH]; [apply initial_invariant|].
  by apply handle_invariant.
Qed.
End Invariants.

(** ** Display mode and the effective render state *)

Lemma frames_view_proj s s' :
  frames_view s' = frames_view s →
  currentLayerType s' = currentLayerType s ∧ rainFrames s' = rainFrames s ∧
  satelliteFrames s' = satelliteFrames s.
Proof. unfold frames_view. by intros [= -> -> ->]. Qed.

Section ModeClaims.
Context `{Coercions}.


(** C2 (as the engine implements it): when the primary request of a refresh
  yields no payload, the refresh stores the mode Static and renders the
  static overlay; both FrameSets, the frame index and the playback timer
  are left as they were. *)
Theorem C2_failed_refresh (radarRes satelliteRes : Response) (s : State) :
map_ok s → is_failure radarRes = true →
let s' := initRadarAnimation radarRes satelliteRes s in
currentMode s' = static ∧ rendered s' = RenderStatic ∧
rainFrames s' = rainFrames s ∧ satelliteFrames s' = satelliteFrames s ∧
frameIndex s' = frameIndex s ∧ timer_view s' = timer_view s.
Proof.
intros Hok Hfail. cbv zeta. rewrite initRadarAnimation_failure by done.
destruct (frames_view_proj _ _ (setMode_frames static s)) as (_ & Hrain & Hsat).
repeat split; try done.
- apply setMode_mode.
- by apply setMode_static_rendered.
- apply setMode_frameIndex.
- apply setMode_timer.
Qed.
End ModeClaims.

(** ** Normalisation of the feeds *)

Section NormaliserClaims.
Context `{Coercions}.

(** C3: for a payload whose [radar] entry has a [past] and a [nowcast]
  array of records, and a frame cap of at least 1, the radar FrameSet is
  the last [MAX_FRAMES] entries of the ascending arrangement of the finite
  numbers among the coerced [time]s of past followed by nowcast; the state
  after the refresh holds exactly that list; and past 100, 200, 300 with
  nowcast 400 and a cap of 3 gives 200, 300, 400. *)
Theorem C3_radar_normalisation
(data radarv : value) (past nowcast : list value) (MAX : Z) :
(1 ≤ MAX)%Z →
truthy data = true → get data "radar" = Some radarv →
truthy radarv = true →
get radarv "past" = Some (VArr past) →
get radarv "nowcast" = Some (VArr nowcast) →
Forall is_record (past ++ nowcast) →
let times := (λ f, Number (record_time f)) <$> (past ++ nowcast) in
(∃ sorted : list Z,
   StronglySorted Z.le sorted ∧ sorted ≡ₚ finite_values times ∧
   radar_frames data MAX = Some (Fin <$> lastn (Z.to_nat MAX) sorted) ∧
   ∀ s satelliteRes,
     MAX_FRAMES s = MAX →
     rainFrames (initRadarAnimation (Json data) satelliteRes s)
     = Fin <$> lastn (Z.to_nat MAX) sorted) ∧
radar_frames (radar_payload [100; 200; 300] [400])%Z 3
= Some [Fin 200; Fin 300; Fin 400].
Proof.
intros HMAX Hd Hr Ht Hp Hn Hrec times. split; [|done].
exists (sort gtZ (finite_values times)).
assert (radar_frames data MAX
        = Some (Fin <$> lastn (Z.to_nat MAX) (sort gtZ (finite_values times))))
  as Hframes.
{ rewrite (radar_frames_records data radarv past nowcast) by done.
  by rewrite slice_neg, lastn_fmap. }
split; [|split; [|split]].
- apply (sort_sorted gtZ id). done.
- apply sort_perm.
- done.
- intros s satelliteRes HM.
  assert (radar_frames data (MAX_FRAMES s)
          = Some (Fin <$> lastn (Z.to_nat MAX) (sort gtZ (finite_values times))))
    as Hs by (by rewrite HM).
  by destruct (frames_view_proj _ _
                 (initRadarAnimation_frames _ satelliteRes _ _ Hs))
    as (_ & -> & _).
Qed.

Lemma satellite_frames_primary data source satelliteRes :
truthy data = true → get data "satellite" = Some source →
truthy source = true → extractSatelliteFrames source ≠ [] →
satellite_frames data satelliteRes = extractSatelliteFrames source.
Proof.
intros Hd Hs Ht Hne. unfold satellite_frames. rewrite Hd, Hs. simpl.
rewrite Ht. by destruct (extractSatelliteFrames source).
Qed.

(** C4 (as the engine implements it): the extraction reaches every value
  nested in the payload and yields a frame for every object whose [path]
  is a non-empty string; each frame is the one of the first such object,
  in document order, with its path, so paths are not repeated; the frames
  are in ascending order of time, a frame without time counting as 0; the
  refresh keeps the last [MAX_FRAMES] of them; and entries with paths
  a, b, a give two frames, the first a kept, ordered by time. *)
Theorem C4_satellite_normalisation (source : value) :
let frames := extractSatelliteFrames source in
(∀ o fields p,
   nested source o → o = VObj fields → field "path" fields = VStr p →
   p ≠ "" → ∃ f, f ∈ frames ∧ path f = p) ∧
(∀ f, f ∈ frames ↔ first_occurrence f (collected source)) ∧
NoDup (path <$> frames) ∧
StronglySorted (key_le time_of) frames ∧
(∀ data satelliteRes s,
   (1 ≤ MAX_FRAMES s)%Z →
   is_Some (radar_frames data (MAX_FRAMES s)) →
   truthy data = true → get data "satellite" = Some source →
   truthy source = true → frames ≠ [] →
   satelliteFrames (initRadarAnimation (Json data) satelliteRes s)
   = lastn (Z.to_nat (MAX_FRAMES s)) frames) ∧
extractSatelliteFrames
  (VArr [path_record "a" 5; path_record "b" 3; path_record "a" 1])
= [mkSatFrame "b" (Some (Fin 3)); mkSatFrame "a" (Some (Fin 5))].
Proof.
cbv zeta. split; [|split; [|split; [|split; [|split]]]].
- apply extract_complete.
- apply elem_of_extract.
- apply extract_NoDup.
- apply extract_sorted.
- intros data satelliteRes s HMAX [radarFrames Hr] Hd Hs Ht Hne.
  destruct (frames_view_proj _ _
              (initRadarAnimation_frames _ satelliteRes _ _ Hr))
    as (_ & _ & ->).
  simpl. rewrite slice_neg by done.
  by rewrite (satellite_frames_primary data source).
- done.
Qed.
End NormaliserClaims.

(** ** The frame cap *)


(** ** The claims at concrete states *)


(** C2, as stated, fails: after a refresh whose request is rejected while
    playback runs over loaded frames, both FrameSets still hold their
    frames and the playback timer is still live. *)
Lemma C2_failed_refresh_keeps_frames_and_timer :
  is_failure NetworkError = true ∧
  rainFrames (initRadarAnimation (H := sample_coercions) NetworkError NetworkError playing)
  = [Fin 100; Fin 200; Fin 300; Fin 400] ∧
  satelliteFrames (initRadarAnimation (H := sample_coercions) NetworkError NetworkError playing)
  = [mkSatFrame "b" (Some (Fin 3)); mkSatFrame "a" (Some (Fin 5))] ∧
  animTimer (initRadarAnimation (H := sample_coercions) NetworkError NetworkError playing)
  = Some 1%positive ∧
  timer_count (initRadarAnimation (H := sample_coercions) NetworkError NetworkError playing)
  = 1%nat.
Proof. vm_compute. repeat split; done. Qed.

(** C4, as stated, fails: an object whose [path] is the empty string is
    nested in the payload and has a string path, yet no frame is made for
    it. *)
Lemma C4_empty_path_not_collected :
  ¬ collects_every_string_path (H := sample_coercions)
      (VArr [VObj [("path", VStr "")]]).
Proof.
  intros Hall.
  destruct (Hall (VObj [("path", VStr "")]) [("path", VStr "")] "")
    as (f & Hf & _); [|done|done|].
  - eapply rtc_l; [|apply rtc_refl]. constructor. apply list_elem_of_here.
  - vm_compute in Hf. by apply elem_of_nil in Hf.
Qed.



Lemma C2_witness :
  currentMode (initRadarAnimation (H := sample_coercions) NetworkError BadJson playing)
  = static ∧
  rainFrames (initRadarAnimation (H := sample_coercions) NetworkError BadJson playing)
  = rainFrames playing.
Proof.
  destruct (C2_failed_refresh (H := sample_coercions) NetworkError BadJson playing)
    as (Hmode & _ & Hrain & _).
  - apply map_ok_check. vm_compute. reflexivity.
  - reflexivity.
  - split; [exact Hmode|exact Hrain].
Defined.

Lemma C3_witness :
  ∃ sorted : list Z,
    StronglySorted Z.le sorted ∧
    sorted ≡ₚ [300; 100; 400]%Z ∧
    radar_frames (H := sample_coercions) (radar_payload [300; 100] [400])%Z 2
    = Some (Fin <$> lastn 2 sorted).
Proof.
  destruct (C3_radar_normalisation (H := sample_coercions)
              (radar_payload [300; 100] [400])%Z
              (VObj [("past", VArr (time_record <$> [300; 100]%Z));
                     ("nowcast", VArr (time_record <$> [400]%Z))])
              (time_record <$> [300; 100]%Z) (time_record <$> [400]%Z) 2)
    as [(sorted & Hsorted & Hperm & Hframes & _) _].
  - lia.
  - reflexivity.
  - reflexivity.
  - reflexivity.
  - reflexivity.
  - reflexivity.
  - repeat constructor; eexists; reflexivity.
  - exists sorted. split; [exact Hsorted|]. split; [exact Hperm|exact Hframes].
Defined.

Lemma C4_witness :
  ∃ f, f ∈ extractSatelliteFrames (H := sample_coercions) sample_satellite ∧
       path f = "b".
Proof.
  destruct (C4_satellite_normalisation (H := sample_coercions) sample_satellite)
    as (Hcomplete & _).
  apply (Hcomplete (path_record "b" 3) [("time", VNum (Fin 3)); ("path", VStr "b")]).
  - eapply rtc_l; [apply (child_field _ "infrared"), list_elem_of_here|].
    eapply rtc_l; [|apply rtc_refl].
    apply child_item, list_elem_of_further, list_elem_of_here.
  - reflexivity.
  - reflexivity.
  - discriminate.
Defined.

Lemma C5_witness :
  frameIndex (setLayerType "satellite" playing) = 1%Z ∧
  (running (setLayerType "satellite" playing)
   ↔ running playing ∧ active_frames (setLayerType "satellite" playing) ≠ []).
Proof.
  destruct (C5_layer_switch "satellite" playing) as (_ & Hidx & Hrun & _).
  - apply timer_ok_check. vm_compute. reflexivity.
  - split; [|exact Hrun]. rewrite Hidx; [reflexivity|]. vm_compute. discriminate.
Defined.

Lemma C6_witness :
  frameIndex (showFrame (frameIndex animating + 1) animating) = 0%Z.
Proof.
  destruct (C6_circular_advance animating 1) as (_ & Hlast & _).
  - vm_compute. discriminate.
  - unfold in_bounds. vm_compute. split; [discriminate|reflexivity].
  - left. reflexivity.
  - apply Hlast. reflexivity.
Defined.

Lemma C7_witness :
  FRAME_INTERVAL (setResolution 256 (setResolution 512 animating)) = 450%Z ∧
  TILE_SIZE (setResolution 256 (setResolution 512 animating)) = TILE_SIZE animating ∧
  frameIndex (setResolution 256 (setResolution 512 animating)) = frameIndex animating.
Proof.
  destruct (C7_resolution_round_trip animating) as (Htrip & _).
  - reflexivity.
  - right. unfold in_bounds. vm_compute. split; [discriminate|reflexivity].
  - exact Htrip.
Defined.


Lemma C9_witness :
  (timer_count (calls [CallPlay; CallPlay; CallPause; CallPlay] playing) ≤ 1)%nat.
Proof.
  destruct (C9_single_timer (H := sample_coercions) playing)
    as (_ & _ & _ & _ & Hcalls & _).
  - apply timer_ok_check. vm_compute. reflexivity.
  - apply Hcalls.
Defined.

Lemma C10_witness : showFrame 7 started = started.
Proof.
  destruct (C10_showFrame_without_frames 7 started) as (Hsame & _).
  - reflexivity.
  - exact Hsame.
Defined.

(** * Further properties of the script *)

(** ** Decimal text *)

Lemma digit_pretty_N_char (x : N) :
  (x < 10)%N → digit (pretty_N_char x) = Some (Z.of_N x) ∧
               is_digit (pretty_N_char x) = true ∧
               is_space (pretty_N_char x) = false.
Proof.
  intros Hx.
  assert (∃ n : nat, (n < 10)%nat ∧ x = N.of_nat n) as (n & Hn & ->)
    by (exists (N.to_nat x); lia).
  do 10 (destruct n as [|n]; [done|]). lia.
Qed.

(** Reading the digits that [pretty_N_go] puts in front of [s]. *)
Lemma digits_pretty_N_go (x : N) (s : string) :
  (0 < x)%N → digits (pretty_N_go x s) None = digits s (Some (Z.of_N x)).
Proof.
  revert s. induction (N.lt_wf_0 x) as [x _ IH]. intros s Hx.
  rewrite pretty_N_go_step by done.
  destruct (digit_pretty_N_char (x `mod` 10)) as (Hd & _ & _);
    [by apply N.mod_lt|].
  destruct (decide (x `div` 10 = 0)%N) as [Hz|Hnz].
  - rewrite Hz, pretty_N_go_0. simpl. rewrite Hd. f_equal. f_equal.
    pose proof (N.div_mod x 10 ltac:(done)) as Hdm. rewrite Hz in Hdm. lia.
  - rewrite IH; [|apply N.div_lt; lia|by apply N.neq_0_lt_0]. simpl. rewrite Hd.
    f_equal. f_equal. simpl.
    pose proof (N.div_mod x 10 ltac:(done)) as Hdm.
    set (q := (x `div` 10)%N) in *. set (r := (x `mod` 10)%N) in *. lia.
Qed.

Lemma pretty_N_go_head (x : N) (s : string) :
  (0 < x)%N →
  ∃ c rest, pretty_N_go x s = String c rest ∧ is_digit c = true ∧
            is_space c = false.
Proof.
  revert s. induction (N.lt_wf_0 x) as [x _ IH]. intros s Hx.
  rewrite pretty_N_go_step by done.
  destruct (digit_pretty_N_char (x `mod` 10)) as (_ & Hd & Hs);
    [by apply N.mod_lt|].
  destruct (decide (x `div` 10 = 0)%N) as [Hz|Hnz].
  - rewrite Hz, pretty_N_go_0. eauto.
  - apply IH; [apply N.div_lt; lia|by apply N.neq_0_lt_0].
Qed.

Lemma is_digit_not_sign c :
  is_digit c = true → c ≠ "-"%char ∧ c ≠ "+"%char.
Proof. split; intros ->; done. Qed.

Lemma parseInt_digit_head c rest :
  is_digit c = true → is_space c = false →
  parseInt (String c rest) = digits (String c rest) None.
Proof.
  intros Hd Hs. unfold parseInt. simpl. rewrite Hs.
  destruct (is_digit_not_sign c Hd) as [Hm Hp].
  destruct c as [[] [] [] [] [] [] [] []]; try done.
Qed.

(** [parseInt] reads back the decimal text of a natural number and of an
    integer. *)
Lemma parseInt_pretty_N (x : N) : parseInt (pretty x) = Some (Z.of_N x).
Proof.
  unfold pretty, pretty_N. case_decide as Hx; [by subst|].
  destruct (pretty_N_go_head x "") as (c & rest & Hgo & Hd & Hs); [lia|].
  rewrite Hgo, parseInt_digit_head by done. rewrite <- Hgo.
  rewrite digits_pretty_N_go by lia. done.
Qed.

Lemma digits_pretty_N (x : N) :
  (0 < x)%N → digits (pretty x) None = Some (Z.of_N x).
Proof.
  intros Hx. unfold pretty, pretty_N. case_decide; [lia|].
  by rewrite digits_pretty_N_go.
Qed.

Lemma parseInt_pretty_Z (z : Z) : parseInt (pretty z) = Some z.
Proof.
  destruct z as [|p|p]; [done|..].
  - change (pretty (Z.pos p)) with (pretty (N.pos p)).
    by rewrite parseInt_pretty_N.
  - change (pretty (Z.neg p)) with (String "-"%char (pretty (N.pos p))).
    change (parseInt (String "-"%char (pretty (N.pos p))))
      with (Z.opp <$> digits (pretty (N.pos p)) None).
    by rewrite digits_pretty_N.
Qed.

Lemma string_app_assoc (s1 s2 s3 : string) :
  (s1 +:+ s2) +:+ s3 = s1 +:+ (s2 +:+ s3).
Proof.
  induction s1 as [|c s1 IH]; [done|].
  change (String c ((s1 +:+ s2) +:+ s3) = String c (s1 +:+ (s2 +:+ s3))).
  by rewrite IH.
Qed.

Lemma string_app_nil_r (s : string) : s +:+ "" = s.
Proof.
  induction s as [|c s IH]; [done|].
  change (String c (s +:+ "") = String c s). by rewrite IH.
Qed.

Lemma string_app_length (s1 s2 : string) :
  String.length (s1 +:+ s2) = (String.length s1 + String.length s2)%nat.
Proof.
  induction s1 as [|c s1 IH]; [done|].
  change (S (String.length (s1 +:+ s2)) = S (String.length s1 + String.length s2)).
  by rewrite IH.
Qed.

(** A common ending can be cancelled. *)
Lemma string_app_inj_r (s1 s2 t : string) : s1 +:+ t = s2 +:+ t → s1 = s2.
Proof.
  revert s2. induction s1 as [|c s1 IH]; intros [|d s2] Heq.
  - done.
  - apply (f_equal String.length) in Heq.
    rewrite !string_app_length in Heq. simpl in Heq. lia.
  - apply (f_equal String.length) in Heq.
    rewrite !string_app_length in Heq. simpl in Heq. lia.
  - change (String c (s1 +:+ t) = String d (s2 +:+ t)) in Heq.
    injection Heq as -> Heq. f_equal. by apply IH.
Qed.

(** ** Wind speeds *)

Lemma all_digits_app s1 s2 :
  all_digits (s1 +:+ s2) = all_digits s1 && all_digits s2.
Proof.
  induction s1 as [|c s1 IH]; [done|].
  change (all_digits (String c (s1 +:+ s2))
          = all_digits (String c s1) && all_digits s2).
  simpl. by rewrite IH, andb_assoc.
Qed.

Lemma pretty_N_go_all_digits (x : N) (s : string) :
  all_digits s = true → all_digits (pretty_N_go x s) = true.
Proof.
  revert s. induction (N.lt_wf_0 x) as [x _ IH]. intros s Hs.
  destruct (decide (x = 0)%N) as [->|Hx]; [by rewrite pretty_N_go_0|].
  rewrite pretty_N_go_step by lia.
  apply IH; [apply N.div_lt; lia|]. simpl. rewrite Hs, andb_true_r.
  apply digit_pretty_N_char. by apply N.mod_lt.
Qed.

Lemma pretty_N_all_digits (x : N) :
  all_digits (pretty x) = true ∧ pretty x ≠ "".
Proof.
  unfold pretty, pretty_N. case_decide as Hx; [done|].
  split; [by apply pretty_N_go_all_digits|].
  destruct (pretty_N_go_head x "") as (c & rest & -> & _); [lia|done].
Qed.

(** A run of digits in front of the text extends the run being read. *)
Lemma match_digits_app (d rest cur : string) :
  all_digits d = true →
  match_digits (d +:+ rest) cur = match_digits rest (cur +:+ d).
Proof.
  revert cur. induction d as [|c d IH]; intros cur Hd.
  - by rewrite string_app_nil_r.
  - simpl in Hd. apply andb_prop in Hd as [Hc Hd].
    change (match_digits (String c (d +:+ rest)) cur
            = match_digits rest (cur +:+ String c d)).
    simpl. rewrite Hc, IH by done. by rewrite string_app_assoc.
Qed.

Lemma flush_nonempty cur : cur ≠ "" → flush cur = [cur].
Proof. intros Hne. unfold flush. by case_decide. Qed.

(** The matches are runs of digits, none of them empty. *)
Lemma match_digits_runs (s cur : string) :
  all_digits cur = true →
  Forall (λ n, all_digits n = true ∧ n ≠ "") (match_digits s cur).
Proof.
  revert cur. induction s as [|c s IH]; intros cur Hcur; simpl.
  - unfold flush. case_decide; repeat constructor; done.
  - destruct (is_digit c) eqn:Hc.
    + apply IH. by rewrite all_digits_app, Hcur; simpl; rewrite Hc.
    + apply Forall_app. split; [|by apply IH].
      unfold flush. case_decide; repeat constructor; done.
Qed.

Lemma match_digits_nil (s cur : string) :
  match_digits s cur = [] ↔ cur = "" ∧ has_digit s = false.
Proof.
  revert cur. induction s as [|c s IH]; intros cur; simpl.
  - unfold flush. case_decide; split; try done; by intros [? ?].
  - destruct (is_digit c) eqn:Hc; simpl.
    + rewrite IH. split; [|by intros [_ ?]].
      intros [Hnil _]. by destruct cur.
    + rewrite app_nil, IH. unfold flush.
      case_decide; split; try done; try (by intros [? ?]);
        try (by intros [_ [_ ?]]); by intros [? _].
Qed.

Lemma digits_all_digits (s : string) (acc : option Z) :
  all_digits s = true → (0 ≤ default 0 acc)%Z →
  s ≠ "" ∨ is_Some acc →
  ∃ z, digits s acc = Some z ∧ (0 ≤ z)%Z.
Proof.
  revert acc. induction s as [|c s IH]; intros acc Hs Hacc Hne; simpl.
  - destruct Hne as [?|[z ->]]; [done|]. by exists z.
  - simpl in Hs. apply andb_prop in Hs as [Hc Hs].
    assert (∃ d, digit c = Some d ∧ (0 ≤ d)%Z) as (d & -> & Hd).
    { unfold digit, is_digit in *. rewrite Hc. eexists. split; [done|].
      apply andb_prop in Hc as [Hlo%N.leb_le _]. lia. }
    apply IH; [done|simpl; lia|right; by eexists].
Qed.

Lemma parseInt_run (n : string) :
  all_digits n = true → n ≠ "" → ∃ z, parseInt n = Some z ∧ (0 ≤ z)%Z.
Proof.
  intros Hn Hne. destruct n as [|c n]; [done|].
  pose proof Hn as Hc. simpl in Hc. apply andb_prop in Hc as [Hc _].
  assert (is_space c = false) as Hs.
  { unfold is_space, is_digit in *.
    apply andb_prop in Hc as [Hlo%N.leb_le Hhi%N.leb_le].
    apply orb_false_intro; [apply N.eqb_neq; lia|].
    apply andb_false_intro2, N.leb_gt. lia. }
  rewrite parseInt_digit_head by done.
  apply digits_all_digits; [done|done|by left].
Qed.

(** [Math.max] over finite numbers is their largest. *)
Lemma foldr_max_num (zs : list Z) :
  zs ≠ [] →
  ∃ m, foldr max_num NInf (Fin <$> zs) = Fin m ∧ m ∈ zs ∧
       Forall (λ x, (x ≤ m)%Z) zs.
Proof.
  induction zs as [|z zs IH]; [done|]. intros _.
  destruct zs as [|z' zs].
  - exists z. split; [done|]. split; [apply list_elem_of_here|].
    constructor; [lia|constructor].
  - destruct IH as (m & Hm & Hin & Hall); [done|].
    exists (Z.max z m). split; [|split].
    + change (max_num (Fin z) (foldr max_num NInf (Fin <$> z' :: zs))
              = Fin (Z.max z m)). by rewrite Hm.
    + destruct (Z.max_spec z m) as [[_ ->]|[_ ->]];
        [by apply list_elem_of_further|apply list_elem_of_here].
    + constructor; [lia|].
      eapply Forall_impl; [exact Hall|]. intros x Hx. simpl in *. lia.
Qed.

Section WindFacts.
Context `{Coercions}.

Lemma run_values_parsed (s : string) :
  (λ n, parsed (parseInt n)) <$> match_digits s "" = Fin <$> run_values s ∧
  Forall (λ x, (0 ≤ x)%Z) (run_values s).
Proof.
  unfold run_values.
  pose proof (match_digits_runs s "" eq_refl) as Hruns.
  induction Hruns as [|n l [Hn Hne] _ [IH1 IH2]]; [by split; [|constructor]|].
  destruct (parseInt_run n Hn Hne) as (z & Hz & Hpos).
  csimpl. rewrite Hz, IH1. simpl. split; [done|by constructor].
Qed.

(** X1.  For a text whose numbers are below 2^53, where JavaScript's
    numbers are exact: [parseWindMph] returns null exactly when its
    argument is falsy or its text has no digit; otherwise it returns the
    largest of the numbers that the runs of digits of the text denote, a
    finite number that is not negative. *)
Theorem parseWindMph_largest_run (windStr : value) :
  Forall (λ x, (x < 2 ^ 53)%Z) (run_values (to_string windStr)) →
  (parseWindMph windStr = None
   ↔ truthy windStr = false ∨ has_digit (to_string windStr) = false) ∧
  (∀ r, parseWindMph windStr = Some r →
     ∃ m, r = Fin m ∧ (0 ≤ m < 2 ^ 53)%Z ∧
          m ∈ run_values (to_string windStr) ∧
          Forall (λ x, (x ≤ m)%Z) (run_values (to_string windStr))).
Proof.
  intros Hexact. unfold parseWindMph.
  destruct (truthy windStr); cbn [negb]; [|split; [split; [by left|done]|done]].
  destruct (run_values_parsed (to_string windStr)) as [Hparsed Hpos].
  destruct (match_digits (to_string windStr) "") as [|n l] eqn:Hruns.
  - apply match_digits_nil in Hruns as [_ Hno].
    split; [split; [by right|done]|done].
  - assert (has_digit (to_string windStr) = true) as Hyes.
    { apply not_false_iff_true. intros Hno.
      by assert (match_digits (to_string windStr) "" = [])
        as Hnil by (by apply match_digits_nil); rewrite Hruns in Hnil. }
    rewrite Hyes. split; [split; [done|by intros [?|?]]|].
    intros r Hr.
    assert (r = foldr max_num NInf (Fin <$> run_values (to_string windStr)))
      as -> by (rewrite <- Hparsed; congruence).
    assert (run_values (to_string windStr) ≠ []) as Hne.
    { unfold run_values. by rewrite Hruns. }
    destruct (foldr_max_num _ Hne) as (m & -> & Hin & Hall).
    exists m. split; [done|]. split; [|done].
    rewrite Forall_forall in Hpos. rewrite Forall_forall in Hexact.
    split; [by apply Hpos|by apply Hexact].
Qed.

Lemma match_digits_speed (a : N) (rest : string) :
  match_digits (pretty a +:+ String " "%char rest) ""
  = pretty a :: match_digits rest "".
Proof.
  destruct (pretty_N_all_digits a) as [Hd Hne].
  rewrite match_digits_app by done. simpl. by rewrite flush_nonempty.
Qed.

(** X2.  For the wind texts of the forecast, a single speed [a mph] or a
    range [a to b mph] with speeds below 2^53, [parseWindMph] returns the
    speed, respectively the larger end of the range; [gustMph] does the
    same for a period whose [windGust] is such a text, returns a [windGust]
    that is a whole number as it is, and returns null for a period without
    [windGust] and for a missing period. *)
Theorem parseWindMph_forecast_texts (a b : N) :
  (a < 2 ^ 53)%N → (b < 2 ^ 53)%N →
  parseWindMph (VStr (speed_text a)) = Some (Fin (Z.of_N a)) ∧
  parseWindMph (VStr (range_text a b)) = Some (Fin (Z.of_N (N.max a b))) ∧
  gustMph (VObj [("windGust", VStr (range_text a b))])
  = Some (Fin (Z.of_N (N.max a b))) ∧
  (∀ z fields, field "windGust" fields = VNum (Fin z) →
     gustMph (VObj fields) = Some (Fin z)) ∧
  (∀ fields, field "windGust" fields = VUndef ∨ field "windGust" fields = VNull →
     gustMph (VObj fields) = None) ∧
  gustMph VNull = None ∧ gustMph VUndef = None.
Proof.
  intros _ _. destruct (pretty_N_all_digits a) as [Hda Hnea].
  assert (∀ rest, truthy (VStr (pretty a +:+ rest)) = true) as Htruthy.
  { intros rest. simpl. destruct (pretty a) as [|c s]; [done|]. done. }
  assert (parseWindMph (VStr (range_text a b)) = Some (Fin (Z.of_N (N.max a b))))
    as Hrange.
  { unfold parseWindMph, range_text. rewrite Htruthy.
    cbn [negb to_string].
    change (pretty a +:+ " to " +:+ pretty b +:+ " mph")
      with (pretty a +:+ String " "%char
              (String "t"%char (String "o"%char (String " "%char
                 (pretty b +:+ String " "%char "mph"))))).
    rewrite match_digits_speed. cbn [match_digits is_digit flush].
    simpl (match_digits (String "t" _) _).
    rewrite match_digits_speed. simpl.
    rewrite !parseInt_pretty_N. simpl. f_equal. f_equal. lia. }
  split; [|split; [done|split; [|split; [|split; [|done]]]]].
  - unfold parseWindMph, speed_text. rewrite Htruthy. cbn [negb to_string].
    change (pretty a +:+ " mph") with (pretty a +:+ String " "%char "mph").
    rewrite match_digits_speed. simpl. by rewrite parseInt_pretty_N.
  - unfold gustMph. simpl. exact Hrange.
  - intros z fields Hf. unfold gustMph. simpl. by rewrite Hf.
  - intros fields [Hf|Hf]; unfold gustMph; simpl; by rewrite Hf.
Qed.
End WindFacts.

(** ** Layer names *)

Lemma lower_ascii_idem (c : Ascii.ascii) : lower_ascii (lower_ascii c) = lower_ascii c.
Proof. by destruct c as [[] [] [] [] [] [] [] []]. Qed.

Lemma toLowerCase_idem (s : string) : toLowerCase (toLowerCase s) = toLowerCase s.
Proof.
  induction s as [|c s IH]; [done|]. simpl. by rewrite lower_ascii_idem, IH.
Qed.

Lemma toLowerCase_empty (s : string) : toLowerCase s = "" ↔ s = "".
Proof. by destruct s. Qed.

Lemma truthy_toLowerCase (s1 s2 : string) :
  toLowerCase s1 = toLowerCase s2 → truthy (VStr s1) = truthy (VStr s2).
Proof.
  intros Heq. destruct s1, s2; try done.
Qed.

(** X3.  Layer names are matched without regard to ASCII case; the four
    names the script itself uses normalise to their own layer type; and
    switching to a layer by any of its names is switching to it by the name
    of its type. *)
Theorem normalizeLayerType_names :
  (∀ s1 s2, toLowerCase s1 = toLowerCase s2 →
            normalizeLayerType s1 = normalizeLayerType s2) ∧
  (∀ ty, normalizeLayerType (layer_name ty) = ty) ∧
  (∀ layerType s,
     setLayerType layerType s
     = setLayerType (layer_name (normalizeLayerType layerType)) s).
Proof.
  assert (∀ ty, normalizeLayerType (layer_name ty) = ty) as Hname
    by (by intros []).
  split; [|split; [done|]].
  - intros s1 s2 Heq. unfold normalizeLayerType.
    by rewrite (truthy_toLowerCase s1 s2 Heq), Heq.
  - intros layerType s. unfold setLayerType. by rewrite Hname.
Qed.

(** ** Tile addresses *)

Lemma radar_url_eq (t : num) (size : Z) :
  rvFrameUrl (TokNum t) size radar
  = "https://tilecache.rainviewer.com/v2/"
      +:+ ("radar/" +:+ num_to_string (if isFinite t then t else Fin 0)
           +:+ "/" +:+ pretty size +:+ "/{z}/{x}/{y}/2/1_1.png").
Proof. done. Qed.

Lemma satellite_url_eq (p : string) (size : Z) (ty : LayerType) :
  ty ≠ radar →
  rvFrameUrl (TokStr p) size ty
  = "https://tilecache.rainviewer.com/v2/"
      +:+ ("satellite/" +:+ (if truthy (VStr p) then p else "0")
           +:+ "/" +:+ pretty size +:+ "/{z}/{x}/{y}/0/"
           +:+ (if decide (ty = satellite) then "0_0.png" else "0_1.png")).
Proof. by destruct ty. Qed.

(** X4.  Tile addresses tell frames apart: at one tile size, two radar
    frames with different finite times, and two frames of one satellite
    layer with different non-empty paths, have different addresses; an
    address of the radar layer is never one of a satellite layer; and the
    clouds and temperature layers share their addresses. *)
Theorem rvFrameUrl_distinguishes_frames :
  (∀ a b size,
     rvFrameUrl (TokNum (Fin a)) size radar = rvFrameUrl (TokNum (Fin b)) size radar →
     a = b) ∧
  (∀ p q size ty,
     ty ≠ radar → p ≠ "" → q ≠ "" →
     rvFrameUrl (TokStr p) size ty = rvFrameUrl (TokStr q) size ty → p = q) ∧
  (∀ t p size size' ty,
     ty ≠ radar → rvFrameUrl (TokNum t) size radar ≠ rvFrameUrl (TokStr p) size' ty) ∧
  (∀ token size, rvFrameUrl token size clouds = rvFrameUrl token size temp).
Proof.
  split; [|split; [|split]].
  - intros a b size. rewrite !radar_url_eq. simpl isFinite. cbv iota.
    intros Heq. apply (inj (String.app _)), (inj (String.app _)) in Heq.
    apply string_app_inj_r in Heq. by apply (inj pretty).
  - intros p q size ty Hty Hp Hq. rewrite !satellite_url_eq by done.
    assert (∀ x, x ≠ "" → truthy (VStr x) = true) as Htruthy
      by (by intros []).
    rewrite !Htruthy by done.
    intros Heq. apply (inj (String.app _)), (inj (String.app _)) in Heq.
    by apply string_app_inj_r in Heq.
  - intros t p size size' ty Hty.
    rewrite radar_url_eq, satellite_url_eq by done.
    intros Heq. apply (inj (String.app _)) in Heq. discriminate Heq.
  - by intros [].
Qed.

(** ** Display modes compose *)

Lemma setMode_after m1 m2 s : setMode m2 (setMode m1 s) = setMode m2 s.
Proof.
  rewrite (setMode_eq m2 (setMode m1 s)), (setMode_eq m2 s).
  destruct (setMode_vars m1 s) as (-> & -> & _).
  assert (∀ i, i ∈ onMap (setMode m1 s) →
               i ∈ onMap s ∨ radarLayer s = Some i ∨ rainLayer s = Some i) as Hin.
  { intros i Hi%setMode_onMap. destruct m1; tauto. }
  assert (∀ i, i ∈ onMap s →
               i ∈ onMap (setMode m1 s) ∨ radarLayer s = Some i ∨ rainLayer s = Some i)
    as Hout.
  { intros i Hi. rewrite setMode_onMap.
    destruct (decide (radarLayer s = Some i)), (decide (rainLayer s = Some i));
      destruct m1; tauto. }
  assert (match m2 with
          | off => (onMap (setMode m1 s) ∖ opt_set (radarLayer s))
                     ∖ opt_set (rainLayer s)
          | static => opt_set (radarLayer s)
                        ∪ (onMap (setMode m1 s) ∖ opt_set (rainLayer s))
          | _ => opt_set (rainLayer s)
                   ∪ (onMap (setMode m1 s) ∖ opt_set (radarLayer s))
          end
          = match m2 with
            | off => (onMap s ∖ opt_set (radarLayer s)) ∖ opt_set (rainLayer s)
            | static => opt_set (radarLayer s) ∪ (onMap s ∖ opt_set (rainLayer s))
            | _ => opt_set (rainLayer s) ∪ (onMap s ∖ opt_set (radarLayer s))
            end) as ->.
  { apply set_eq. intros i.
    specialize (Hin i). specialize (Hout i).
    destruct m2;
      rewrite ?elem_of_union, !elem_of_difference, !elem_of_opt_set; tauto. }
  rewrite (setMode_eq m1 s). by destruct s.
Qed.

(** X5.  The display mode is memoryless: what [setMode] leaves behind does
    not depend on the mode set before it, so setting a mode twice is setting
    it once; after Off neither overlay is on the map, and after Off then
    Static exactly the static overlay is. *)
Theorem setMode_last_wins (s : State) :
  (∀ m1 m2, setMode m2 (setMode m1 s) = setMode m2 s) ∧
  rendered (setMode off s) = RenderOff ∧
  (map_ok s → rendered (setMode static (setMode off s)) = RenderStatic).
Proof.
  split; [intros; apply setMode_after|]. split.
  - destruct (setMode_vars off s) as (Hr & Ha & _).
    assert (∀ layer, layer = radarLayer s ∨ layer = rainLayer s →
                     shown layer (setMode off s) = false) as Hoff.
    { intros layer Hl. apply not_true_is_false. rewrite shown_spec.
      intros (i & -> & Hi%setMode_onMap). destruct Hi as (_ & ? & ?).
      by destruct Hl. }
    unfold rendered. rewrite Hr, Ha. by rewrite !Hoff by auto.
  - intros Hok. rewrite setMode_after. by apply setMode_static_rendered.
Qed.

(** ** Playback controls *)

Lemma settings_view_proj s s' :
  settings_view s' = settings_view s →
  MAX_FRAMES s' = MAX_FRAMES s ∧ FRAME_INTERVAL s' = FRAME_INTERVAL s ∧
  LAYER_OPACITY s' = LAYER_OPACITY s ∧ TILE_SIZE s' = TILE_SIZE s.
Proof. unfold settings_view. by intros [= _ -> -> -> ->]. Qed.

Lemma running_view s s' : timer_view s' = timer_view s → running s' → running s.
Proof. unfold timer_view, running. by intros [= -> -> -> _]. Qed.

Lemma not_running_paused s : timer_ok s → ¬ running (pause s).
Proof.
  intros Hok [Hp _]. destruct (pause_stops s) as (Hf & _). congruence.
Qed.

Lemma or_default_pretty (v d : Z) : or_default (parseInt (pretty v)) d = if (v =? 0)%Z then d else v.
Proof. by rewrite parseInt_pretty_Z. Qed.

(** X6.  Moving the frame slider stops playback and shows the chosen
    frame: with the playback timer in order and the slider at a position
    [v] within the active FrameSet, the frame index becomes [v], no timer is
    left running and the frame lists are untouched; a slider text that is
    not a number shows frame 0. *)
Theorem frameSlider_scrubs (v : Z) (s : State) :
  timer_ok s →
  (0 ≤ v < Z.of_nat (length (active_frames s)))%Z →
  let s' := on_frameSlider_input (pretty v) s in
  frameIndex s' = v ∧ ¬ running s' ∧ timer_count s' = 0%nat ∧
  frames_view s' = frames_view s ∧
  (∀ value, parseInt value = None →
            frameIndex (on_frameSlider_input value s) = 0%Z).
Proof.
  intros Hok Hv. cbv zeta. unfold on_frameSlider_input.
  pose proof (active_frames_view _ _ (pause_frames s)) as Hact.
  assert (active_frames (pause s) ≠ []) as Hne.
  { rewrite Hact. destruct (active_frames s); [simpl in Hv; lia|done]. }
  destruct (pause_timer_ok s Hok) as [Hok' Hempty].
  split; [|split; [|split; [|split]]].
  - rewrite showFrame_frameIndex, Hact, or_default_pretty by done.
    destruct (Z.eqb_spec v 0) as [->|_]; apply rem_in_bounds; lia.
  - intros Hrun. apply (running_view _ _ (showFrame_timer _ _)) in Hrun.
    by apply (not_running_paused s).
  - unfold timer_count.
    destruct (timer_view_proj _ _ (showFrame_timer (or_default (parseInt (pretty v)) 0) (pause s)))
      as (_ & _ & ->).
    rewrite Hempty. apply map_size_empty.
  - by rewrite showFrame_frames, pause_frames.
  - intros value ->. simpl. rewrite showFrame_frameIndex, Hact by done.
    apply rem_in_bounds. lia.
Qed.

(** X7.  The play button toggles playback: with the playback timer in
    order, playback runs after a click exactly when it was not running
    before the click and the active FrameSet has frames. *)
Theorem playBtn_toggles (s : State) :
  timer_ok s →
  (running (on_playBtn_click s) ↔ ¬ running s ∧ active_frames s ≠ []) ∧
  timer_ok (on_playBtn_click s).
Proof.
  intros Hok. unfold on_playBtn_click.
  pose proof (running_iff s Hok) as Hrun.
  destruct (isPlaying s) eqn:Hp.
  - split; [|by apply pause_timer_ok]. split.
    + intros Hr. by apply not_running_paused in Hr.
    + intros [Hnot _]. destruct Hnot. by apply Hrun.
  - split; [|by apply play_timer_ok].
    rewrite (running_iff _ (play_timer_ok s Hok)).
    assert (animTimer s = None) as Hnone.
    { destruct Hok as [Hflag _]. destruct (animTimer s) eqn:Ht; [|done].
      assert (isPlaying s = true) by (apply Hflag; by eexists). congruence. }
    destruct (decide (active_frames s = [])) as [Hempty|Hne].
    + rewrite play_noop by (by right). rewrite Hp. split; [done|by intros [_ ?]].
    + destruct (play_starts s Hnone Hne) as (-> & _).
      split; [|done]. intros _. split; [|done]. rewrite Hrun. done.
Qed.

(** X8.  The speed slider keeps the frame interval within [[120, 800]], a
    number other than zero being clamped into that range; with the playback
    timer in order, playback goes on exactly when it was running and the
    active FrameSet has frames, and the timer that is then live runs at the
    new interval. *)
Theorem speedSlider_retimes (value : string) (s : State) :
  timer_ok s →
  let s' := on_speedSlider_input value s in
  (120 ≤ FRAME_INTERVAL s' ≤ 800)%Z ∧
  (∀ n, parseInt value = Some n → n ≠ 0%Z →
        FRAME_INTERVAL s' = clamp 120 800 n) ∧
  (running s' ↔ running s ∧ active_frames s ≠ []) ∧
  (∀ t d, intervals s' !! t = Some d → d = FRAME_INTERVAL s') ∧
  timer_ok s'.
Proof.
  intros Hok. cbv zeta. unfold on_speedSlider_input. cbv zeta.
  set (v := Z.max 120 (Z.min 800 (or_default (parseInt value) 450))).
  set (s1 := set_FRAME_INTERVAL v s).
  assert (timer_ok s1) as Hok1 by (by apply (timer_ok_view s)).
  assert (running s1 ↔ running s) as Hrun1 by done.
  assert (active_frames s1 = active_frames s) as Hact1 by done.
  assert (FRAME_INTERVAL (if isPlaying s1 then play (pause s1) else s1) = v) as Hv.
  { destruct (isPlaying s1); [|done].
    destruct (settings_view_proj _ _ (play_settings (pause s1))) as (_ & -> & _).
    by destruct (settings_view_proj _ _ (pause_settings s1)) as (_ & -> & _). }
  rewrite Hv. split; [subst v; lia|]. split.
  { intros n Hn Hne. subst v. rewrite Hn. unfold clamp. simpl.
    by destruct (Z.eqb_spec n 0). }
  pose proof (running_iff s1 Hok1) as Hiff.
  destruct (isPlaying s1) eqn:Hp.
  - destruct (pause_timer_ok s1 Hok1) as [Hokp Hempty].
    destruct (pause_stops s1) as (Hpf & Hnone & _).
    pose proof (active_frames_view _ _ (pause_frames s1)) as Hactp.
    pose proof (play_timer_ok _ Hokp) as Hokpp.
    split; [|split; [|done]].
    + rewrite (running_iff _ Hokpp), <- Hrun1, Hiff, <- Hact1, <- Hactp.
      destruct (decide (active_frames (pause s1) = [])) as [He|Hne].
      * rewrite play_noop by (by right). rewrite Hpf. split; [done|by intros [_ ?]].
      * by destruct (play_starts _ Hnone Hne) as (-> & _).
    + intros t d.
      destruct (decide (active_frames (pause s1) = [])) as [He|Hne].
      * rewrite play_noop by (by right). by rewrite Hempty, lookup_empty.
      * destruct (play_starts _ Hnone Hne) as (_ & _ & ->).
        rewrite Hempty.
        destruct (settings_view_proj _ _ (pause_settings s1)) as (_ & -> & _).
        intros [[_ <-]|[_ Hd%lookup_empty_Some]]%lookup_insert_Some; done.
  - split; [|split; [|done]].
    + split; [intros Hr; by apply Hiff in Hr|].
      intros [Hr _]. by apply Hrun1, Hiff in Hr.
    + intros t d Ht. destruct Hok1 as [Hflag Hdom].
      destruct (animTimer s1) eqn:Han.
      * assert (isPlaying s1 = true) by (apply Hflag; by eexists). congruence.
      * apply dom_empty_iff_L in Hdom. rewrite Hdom in Ht.
        by apply lookup_empty_Some in Ht.
Qed.

(** ** Refreshes *)

Section RefreshExtras.
Context `{Coercions}.

(** X9.  A refresh never starts or stops playback: the playback flag, the
    remembered timer and the live timers are as before it, whatever the
    requests return.  The max-frames control pauses before it refreshes, so
    after its change event, the playback timer having been in order, no
    timer is live. *)
Theorem refresh_keeps_timer (radarRes satelliteRes : Response) (s : State) :
  timer_view (handle (RefreshBtnClick radarRes satelliteRes) s) = timer_view s ∧
  (timer_ok s →
   ¬ running (handle (MaxFramesChange radarRes satelliteRes) s) ∧
   timer_count (handle (MaxFramesChange radarRes satelliteRes) s) = 0%nat).
Proof.
  split; [apply initRadarAnimation_timer|]. intros Hok. simpl.
  pose proof (initRadarAnimation_timer radarRes satelliteRes (pause s)) as Hv.
  split.
  - intros Hrun%(running_view _ _ Hv). by apply (not_running_paused s).
  - unfold timer_count. destruct (timer_view_proj _ _ Hv) as (_ & _ & ->).
    destruct (pause_timer_ok s Hok) as [_ ->]. apply map_size_empty.
Qed.

(** X10.  A payload of the older shape, an array of times, gives the same
    kind of radar FrameSet as the newer one: for a frame cap of at least 1,
    the last [MAX_FRAMES] entries of the ascending arrangement of the finite
    numbers among the coerced entries.  A payload that is no array and has
    no [radar] entry gives the empty FrameSet. *)
Theorem radar_frames_legacy (items : list value) (MAX : Z) :
  (1 ≤ MAX)%Z →
  (∃ sorted : list Z,
     StronglySorted Z.le sorted ∧
     sorted ≡ₚ finite_values (Number <$> items) ∧
     radar_frames (VArr items) MAX = Some (Fin <$> lastn (Z.to_nat MAX) sorted)) ∧
  (∀ data,
     isArray data = false →
     (truthy data = true → ∃ v, get data "radar" = Some v ∧ truthy v = false) →
     radar_frames data MAX = Some []).
Proof.
  intros HMAX. split.
  - exists (sort gtZ (finite_values (Number <$> items))).
    split; [by apply (sort_sorted gtZ id)|]. split; [apply sort_perm|].
    unfold radar_frames. simpl.
    rewrite filter_isFinite, (sort_fmap Fin gtZ cmp_num _ cmp_num_Fin).
    by rewrite slice_neg, lastn_fmap.
  - intros data Harr Hradar. unfold radar_frames.
    destruct (truthy data) eqn:Ht.
    + destruct (Hradar eq_refl) as (v & -> & Hv). simpl. rewrite Hv.
      by destruct data.
    + simpl. by destruct data.
Qed.

(** X11.  One record that is [null] or [undefined] in [past] or [nowcast]
    makes the whole refresh fail: reading its time throws, so neither frame
    list is replaced, the satellite feed included, and the refresh only
    sets the mode Static. *)
Theorem malformed_record_fails_refresh
  (data radarv : value) (past nowcast : list value) (satelliteRes : Response)
  (s : State) :
  truthy data = true → get data "radar" = Some radarv →
  truthy radarv = true →
  get radarv "past" = Some (VArr past) →
  get radarv "nowcast" = Some (VArr nowcast) →
  Exists (λ f, f = VNull ∨ f = VUndef) (past ++ nowcast) →
  radar_frames data (MAX_FRAMES s) = None ∧
  initRadarAnimation (Json data) satelliteRes s = setMode static s ∧
  frames_view (initRadarAnimation (Json data) satelliteRes s) = frames_view s.
Proof.
  intros Hd Hr Ht Hp Hn Hbad.
  assert (radar_frames data (MAX_FRAMES s) = None) as Hnone.
  { unfold radar_frames. rewrite Hd, Hr. simpl. rewrite Ht, Hp, Hn. simpl.
    assert (mapM (λ f, t ← get f "time"; Some (Number t)) (past ++ nowcast)
            = None) as ->; [|done].
    apply mapM_None. eapply Exists_impl; [exact Hbad|].
    by intros f [-> | ->]. }
  assert (initRadarAnimation (Json data) satelliteRes s = setMode static s) as Hinit.
  { unfold initRadarAnimation. by rewrite Hnone. }
  split; [done|]. split; [done|]. rewrite Hinit. apply setMode_frames.
Qed.

(** X12.  A refresh that completes and finds frames for the active layer
    type shows the most recent one: the frame index is [frameCount - 1], the
    animated overlay object exists, and the new frame lists are the ones the
    normaliser built. *)
Theorem refresh_shows_latest
  (data : value) (satelliteRes : Response) (frames : list num) (s : State) :
  radar_frames data (MAX_FRAMES s) = Some frames →
  let s' := initRadarAnimation (Json data) satelliteRes s in
  rainFrames s' = frames ∧
  satelliteFrames s'
  = slice (- MAX_FRAMES s) (satellite_frames data satelliteRes) ∧
  (active_frames s' ≠ [] →
   frameIndex s' = (Z.of_nat (length (active_frames s')) - 1)%Z ∧
   is_Some (rainLayer s')).
Proof.
  intros Hr. cbv zeta.
  pose proof (initRadarAnimation_frames _ satelliteRes _ _ Hr) as Hv.
  destruct (frames_view_proj _ _ Hv) as (_ & -> & ->).
  split; [done|]. split; [done|].
  rewrite (active_frames_view _ _ Hv).
  rewrite (initRadarAnimation_unfold _ _ _ _ Hr). cbv zeta.
  assert (radar_finite (refreshed data satelliteRes frames s)) as Hfin.
  { unfold radar_finite. simpl. by eapply radar_frames_finite. }
  generalize dependent (refreshed data satelliteRes frames s).
  intros s0 _ Hfin Hne.
  assert (0 < length (active_frames s0))%nat as Hpos
    by (destruct (active_frames s0); [done|simpl; lia]).
  destruct (Nat.ltb_spec 0 (length (active_frames s0))) as [_|?]; [|lia].
  set (i := (Z.of_nat (length (active_frames s0)) - 1)%Z).
  assert (frameIndex (showFrame i s0) = i) as Hidx.
  { rewrite showFrame_frameIndex by done. apply rem_in_bounds. subst i. lia. }
  assert (is_Some (rainLayer (showFrame i s0))) as Hrain.
  { apply showFrame_creates; [done|]. subst i. lia. }
  set (s2 := setMode _ _).
  assert (frameIndex s2 = i ∧ is_Some (rainLayer s2)) as [Hi2 Hr2].
  { subst s2. rewrite setMode_frameIndex.
    by destruct (setMode_vars (currentMode (showFrame i s0)) (showFrame i s0))
      as (_ & -> & _). }
  destruct (radarLayer s2); [|done]. by destruct (_ && _).
Qed.
End RefreshExtras.

(** ** Overlays of the running page *)

Transparent showFrame.

Lemma showFrame_unfold i s token :
  active_frames s ≠ [] →
  getFrameToken (nth (active_frames s) (wrapped i s)) (currentLayerType s)
  = Some token →
  showFrame i s
  = let u := rvFrameUrl token (TILE_SIZE s) (currentLayerType s) in
    let s0 := set_frameIndex (wrapped i s) s in
    match rainLayer s with
    | Some a => if hasLayer a s then setUrl a u s0 else overlay_created u s0
    | None => overlay_created u s0
    end.
Proof.
  intros Hne Htok. unfold showFrame, wrapped in *. cbv zeta.
  destruct (length (active_frames s)) eqn:Hlen;
    [by apply length_zero_iff_nil in Hlen|].
  cbn [Nat.eqb frameIndex set_frameIndex currentLayerType TILE_SIZE rainLayer].
  rewrite Htok. unfold overlay_created, hasLayer, setUrl, tileLayer, animated_opts, addTo.
  destruct s as [ty m rf sf r [a|] ix tm pl rec mx fi op tsz ly om nl iv nt];
    cbn; reflexivity.
Qed.

Lemma showFrame_no_token i s :
  active_frames s ≠ [] →
  getFrameToken (nth (active_frames s) (wrapped i s)) (currentLayerType s)
  = None →
  showFrame i s = set_frameIndex (wrapped i s) s.
Proof.
  intros Hne Htok. unfold showFrame, wrapped in *. cbv zeta.
  destruct (length (active_frames s)) eqn:Hlen;
    [by apply length_zero_iff_nil in Hlen|].
  cbn [Nat.eqb frameIndex set_frameIndex currentLayerType TILE_SIZE rainLayer].
  by rewrite Htok.
Qed.

Opaque showFrame.

Lemma wrapped_in_bounds i s :
  active_frames s ≠ [] →
  (- Z.of_nat (length (active_frames s)) ≤ i)%Z →
  (0 ≤ wrapped i s < Z.of_nat (length (active_frames s)))%Z.
Proof.
  intros Hne Hi. unfold wrapped.
  assert (0 < Z.of_nat (length (active_frames s)))%Z
    by (destruct (active_frames s); [done|simpl; lia]).
  rewrite rem_wrap by lia. by apply Z.mod_pos_bound.
Qed.

Lemma showFrame_spec i s : showFrame_outcome i s (showFrame i s).
Proof.
  destruct (decide (active_frames s = [])) as [Hempty|Hne].
  { rewrite showFrame_empty by done. by constructor. }
  destruct (getFrameToken (nth (active_frames s) (wrapped i s))
              (currentLayerType s)) as [token|] eqn:Htok.
  - rewrite (showFrame_unfold _ _ _ Hne Htok). cbv zeta.
    destruct (rainLayer s) as [a|] eqn:Ha.
    + destruct (hasLayer a s) eqn:Hhas.
      * eapply outcome_url_set; try done.
        by apply bool_decide_eq_true in Hhas.
      * apply outcome_created; try done. by rewrite Ha.
    + apply outcome_created; try done. by rewrite Ha.
  - rewrite (showFrame_no_token _ _ Hne Htok). by constructor.
Qed.

Lemma overlay_created_fields u s :
  rainLayer (overlay_created u s) = Some (nextLayer s) ∧
  radarLayer (overlay_created u s) = radarLayer s ∧
  nextLayer (overlay_created u s) = S (nextLayer s) ∧
  layers (overlay_created u s)
  = <[nextLayer s := animated_opts u s]> (layers s) ∧
  onMap (overlay_created u s)
  = (if wants_animation (currentMode s) then {[nextLayer s]} ∪ onMap s
     else onMap s) ∧
  frames_view (overlay_created u s) = frames_view s ∧
  settings_view (overlay_created u s) = settings_view s ∧
  currentMode (overlay_created u s) = currentMode s ∧
  frameIndex (overlay_created u s) = frameIndex s.
Proof.
  unfold overlay_created, tileLayer, addTo.
  cbn [currentMode set_rainLayer set_nextLayer set_layers].
  by destruct (wants_animation (currentMode s)).
Qed.


Lemma map_ok_fresh s :
  map_ok s →
  radarLayer s ≠ Some (nextLayer s) ∧ rainLayer s ≠ Some (nextLayer s) ∧
  nextLayer s ∉ onMap s.
Proof.
  intros ((r & Hr & Hlt & _) & Hrain & Hmap). split; [|split].
  - rewrite Hr. intros [= ->]. lia.
  - intros Ha%Hrain. lia.
  - intros Hin%Hmap. lia.
Qed.




Lemma shown_false layer s :
  shown layer s = false ↔ ∀ a, layer = Some a → a ∉ onMap s.
Proof.
  rewrite <- not_true_iff_false, shown_spec. split.
  - intros Hn a Ha Hin. apply Hn. eauto.
  - intros Hn (a & Ha & Hin). by apply (Hn a).
Qed.










(** *** [setMode] *)



Lemma setMode_shown m s :
  map_ok s →
  shown (radarLayer (setMode m s)) (setMode m s) = bool_decide (m = static) ∧
  shown (rainLayer (setMode m s)) (setMode m s)
  = wants_animation m && bool_decide (is_Some (rainLayer s)).
Proof.
  intros ((r & Hr & _ & Hne) & _).
  destruct (setMode_vars m s) as (-> & -> & _). split.
  - apply eq_true_iff_eq. rewrite shown_spec, bool_decide_eq_true. split.
    + intros (r' & Hr' & Hin). apply setMode_onMap in Hin.
      destruct m; try done;
        [destruct Hin as [?|[_ ?]]..|destruct Hin as (_ & ? & _)]; congruence.
    + intros ->. exists r. split; [done|]. apply setMode_onMap. by left.
  - apply eq_true_iff_eq.
    rewrite shown_spec, andb_true_iff, bool_decide_eq_true. split.
    + intros (a & Ha & Hin). apply setMode_onMap in Hin.
      destruct m; try (split; [done|by rewrite Ha]);
        [destruct Hin as [?|[_ ?]]|destruct Hin as (_ & _ & ?)]; congruence.
    + intros [Hm [a Ha]]. exists a. split; [done|]. apply setMode_onMap.
      destruct m; try done; by left.
Qed.


(** *** Layer switches, resolution changes, opacity *)

Transparent layer_switched resolution_set.


Lemma resolution_set_eq size s :
  resolution_set size s
  = let s0 := if isPlaying s then pause s else s in
    set_rainLayer None
      (set_onMap (onMap s0 ∖ opt_set (rainLayer s0))
         (set_FRAME_INTERVAL (if (size =? 512)%Z then 650 else 450)%Z
            (set_TILE_SIZE size s0))).
Proof.
  unfold resolution_set. cbv zeta.
  generalize (if isPlaying s then pause s else s). intros s0.
  rewrite remove_if_shown_eq. by destruct s0.
Qed.

Opaque layer_switched resolution_set.



Lemma setRadarOpacity_eq v s :
  setRadarOpacity v s
  = set_layers
      (match rainLayer s with
       | Some a => alter (opacity_set v) a
       | None => id
       end
         (match radarLayer s with
          | Some r => alter (opacity_set v) r
          | None => id
          end (layers s)))
      (set_LAYER_OPACITY v s).
Proof.
  unfold setRadarOpacity, setOpacity. cbv zeta.
  by destruct s as [? ? ? ? [r|] [a|]].
Qed.


Lemma setRadarOpacity_display v s :
  map_view (setRadarOpacity v s)
  = (radarLayer s, rainLayer s, layers (setRadarOpacity v s), onMap s,
     nextLayer s) ∧
  frames_view (setRadarOpacity v s) = frames_view s ∧
  currentMode (setRadarOpacity v s) = currentMode s ∧
  frameIndex (setRadarOpacity v s) = frameIndex s ∧
  TILE_SIZE (setRadarOpacity v s) = TILE_SIZE s ∧
  LAYER_OPACITY (setRadarOpacity v s) = v ∧
  FRAME_INTERVAL (setRadarOpacity v s) = FRAME_INTERVAL s.
Proof. by rewrite setRadarOpacity_eq. Qed.






(** *** The operations of the engine *)







Section RefreshDisplay.
Context `{Coercions}.

(** After [setMode], the removal that ends a refresh has nothing to
    remove. *)
Lemma initRadarAnimation_eq data satelliteRes frames s :
  map_ok s → radar_frames data (MAX_FRAMES s) = Some frames →
  initRadarAnimation (Json data) satelliteRes s
  = let s0 := refreshed data satelliteRes frames s in
    if (0 <? length (active_frames s0))%nat then
      setMode (currentMode s0)
        (showFrame (Z.of_nat (length (active_frames s0)) - 1) s0)
    else setMode static s0.
Proof.
  intros Hmap Hr. rewrite (initRadarAnimation_unfold _ _ _ _ Hr). cbv zeta.
  assert (map_ok (refreshed data satelliteRes frames s)) as Hmap0 by exact Hmap.
  generalize dependent (refreshed data satelliteRes frames s). intros s0 Hmap0.
  destruct (0 <? length (active_frames s0))%nat; [|done].
  set (i := (Z.of_nat (length (active_frames s0)) - 1)%Z).
  rewrite showFrame_mode.
  pose proof (showFrame_map_ok i s0 Hmap0) as Hmap1.
  destruct (setMode_shown (currentMode s0) _ Hmap1) as [Hradar _].
  rewrite setMode_mode.
  destruct (radarLayer (setMode (currentMode s0) (showFrame i s0))) as [r|];
    [|done].
  cbn [shown] in Hradar. rewrite Hradar.
  by destruct (currentMode s0).
Qed.





Lemma run_invariant es s : invariant s → invariant (run es s).
Proof.
  revert s. induction es as [|e es IH]; intros s Hinv; [done|].
  apply IH. by apply handle_invariant.
Qed.

End RefreshDisplay.

Section DisplayExtras.
Context `{Coercions}.

Lemma reachable_run es s : reachable s → reachable (run es s).
Proof.
  revert s. induction es as [|e es IH]; intros s Hs; [done|].
  apply IH. by constructor.
Qed.




(** X16.  With the overlay variables in order, a refresh that completes
    is [showFrame] of the last frame followed by [setMode] of the stored
    mode, or [setMode('static')] when the active frame list is empty: the
    removal of the static overlay that closes it never has anything to
    remove. *)
Theorem refresh_closing_removal
  (data : value) (satelliteRes : Response) (frames : list num) (s : State) :
  map_ok s → radar_frames data (MAX_FRAMES s) = Some frames →
  initRadarAnimation (Json data) satelliteRes s
  = let s0 := refreshed data satelliteRes frames s in
    if (0 <? length (active_frames s0))%nat then
      setMode (currentMode s0)
        (showFrame (Z.of_nat (length (active_frames s0)) - 1) s0)
    else setMode static s0.
Proof. apply initRadarAnimation_eq. Qed.
End DisplayExtras.

(** X17.  The wrap-around of [showFrame] reaches one list length below
    zero only: for an index below [-frameCount] that is not a multiple of
    it, the stored frame index is negative, no frame is read, and nothing
    but the frame index changes. *)
Theorem showFrame_below_range (i : Z) (s : State) :
  let N := Z.of_nat (length (active_frames s)) in
  active_frames s ≠ [] → (i < - N)%Z → (i mod N ≠ 0)%Z →
  showFrame i s = set_frameIndex (- ((- i) mod N)) s ∧
  (- N < frameIndex (showFrame i s) < 0)%Z ∧
  nth (active_frames s) (frameIndex (showFrame i s)) = None.
Proof.
  intros N Hne Hi Hmod.
  assert (0 < N)%Z as HN
    by (subst N; destruct (active_frames s); [done|simpl; lia]).
  assert (wrapped i s = (- ((- i) mod N))%Z) as Hw.
  { unfold wrapped, rem. fold N.
    replace (i + N)%Z with (- (- i - N))%Z by lia.
    rewrite Z.rem_opp_l by lia. rewrite Z.rem_mod_nonneg by lia.
    f_equal. replace (- i - N)%Z with (- i + (-1) * N)%Z by lia.
    by rewrite Z.mod_add by lia. }
  assert (0 < (- i) mod N < N)%Z as Hrange.
  { pose proof (Z.mod_pos_bound (- i) N HN) as Hb.
    assert ((- i) mod N ≠ 0)%Z; [|lia].
    intros Hz. apply Hmod. apply Z.mod_opp_l_z in Hz; [|lia].
    by rewrite Z.opp_involutive in Hz. }
  assert (showFrame i s = set_frameIndex (- ((- i) mod N)) s) as Heq.
  { rewrite <- Hw. apply showFrame_no_token; [done|].
    rewrite Hw. unfold nth.
    destruct (Z.ltb_spec (- ((- i) mod N)) 0) as [_|?]; [|lia].
    by destruct (currentLayerType s). }
  rewrite Heq. cbn [frameIndex set_frameIndex]. split; [done|].
  split; [lia|]. unfold nth.
  change (active_frames (set_frameIndex (- (- i mod N)) s))
    with (active_frames s).
  by destruct (Z.ltb_spec (- ((- i) mod N)) 0) as [_|?]; [|lia].
Qed.

(** ** Settings and timers of the running page *)

Lemma idle_no_timers s : timer_ok s → isPlaying s = false → intervals s = ∅.
Proof.
  intros [Hflag Hdom] Hp. apply dom_empty_iff_L.
  destruct (animTimer s) as [t|]; [|done].
  destruct Hflag as [_ Hsome]. rewrite Hsome in Hp; [done|by eexists].
Qed.

Lemma no_timers_delay_ok s : intervals s = ∅ → delay_ok s.
Proof. intros Hempty t d. by rewrite Hempty, lookup_empty. Qed.

Lemma timing_view_ok s s' :
  timer_view s' = timer_view s → settings_view s' = settings_view s →
  settings_ok s ∧ delay_ok s → settings_ok s' ∧ delay_ok s'.
Proof.
  unfold timer_view, settings_view, settings_ok, delay_ok.
  by intros [= _ _ -> _] [= _ _ -> -> ->].
Qed.

Lemma pause_timing s :
  settings_ok s ∧ delay_ok s → settings_ok (pause s) ∧ delay_ok (pause s).
Proof.
  intros [Hset Hdelay]. destruct (pause_stops s) as (_ & _ & Hi & _).
  destruct (settings_view_proj _ _ (pause_settings s)) as (_ & Hf & Ho & Ht).
  unfold settings_ok, delay_ok. rewrite Hf, Ho, Ht, Hi. split; [done|].
  intros t d. destruct (animTimer s) as [t0|]; [|by apply Hdelay].
  intros [_ Hd]%lookup_delete_Some. by apply (Hdelay t).
Qed.

Lemma play_timing s :
  settings_ok s ∧ delay_ok s → settings_ok (play s) ∧ delay_ok (play s).
Proof.
  intros [Hset Hdelay].
  destruct (animTimer s) as [t|] eqn:Ht.
  { rewrite play_noop; [done|]. left. by rewrite Ht. }
  destruct (decide (active_frames s = [])) as [Hempty|Hne].
  { rewrite play_noop; [done|]. by right. }
  destruct (play_starts s Ht Hne) as (_ & _ & Hi).
  destruct (settings_view_proj _ _ (play_settings s)) as (_ & Hf & Ho & Hts).
  unfold settings_ok, delay_ok. rewrite Hf, Ho, Hts, Hi. split; [done|].
  intros t d [[_ <-]|[_ Hd]]%lookup_insert_Some; [done|by apply (Hdelay t)].
Qed.

(** [showFrame], [setMode] and, perhaps, [play]. *)
Lemma shown_then_mode_timing i (m : Mode) (was : bool) s :
  settings_ok s ∧ delay_ok s →
  let s' := setMode m (showFrame i s) in
  settings_ok (if was then play s' else s') ∧
  delay_ok (if was then play s' else s').
Proof.
  intros Hok. cbv zeta.
  assert (settings_ok (setMode m (showFrame i s)) ∧
          delay_ok (setMode m (showFrame i s))) as Hok'.
  { revert Hok. apply timing_view_ok.
    - by rewrite setMode_timer, showFrame_timer.
    - by rewrite setMode_settings, showFrame_settings. }
  destruct was; [by apply play_timing|done].
Qed.

Lemma setLayerType_timing layerType s :
  settings_ok s ∧ delay_ok s →
  settings_ok (setLayerType layerType s) ∧ delay_ok (setLayerType layerType s).
Proof.
  intros Hok. rewrite setLayerType_unfold. cbv zeta.
  assert (settings_ok (layer_switched layerType s) ∧
          delay_ok (layer_switched layerType s)) as Hok0.
  { assert (settings_ok (if isPlaying s then pause s else s) ∧
            delay_ok (if isPlaying s then pause s else s)) as Hp
      by (destruct (isPlaying s); [by apply pause_timing|done]).
    revert Hp. apply timing_view_ok; [apply layer_switched_timer|].
    rewrite layer_switched_settings.
    destruct (isPlaying s); [by rewrite pause_settings|done]. }
  generalize dependent (layer_switched layerType s). intros s0 Hok0.
  assert (∀ s1 : State, settings_ok s1 ∧ delay_ok s1 →
            settings_ok (setMode static s1) ∧ delay_ok (setMode static s1))
    as Hstatic.
  { intros s1. apply timing_view_ok;
      [apply setMode_timer|apply setMode_settings]. }
  destruct (0 <? length (active_frames s0))%nat.
  - set (s1 := set_frameIndex _ _).
    apply (shown_then_mode_timing (frameIndex s1) _ (isPlaying s) s1). exact Hok0.
  - destruct (wants_animation (currentMode s0)); [by apply Hstatic|].
    assert (settings_ok (setMode (currentMode s0) s0) ∧
            delay_ok (setMode (currentMode s0) s0)) as Hok1.
    { revert Hok0. apply timing_view_ok;
        [apply setMode_timer|apply setMode_settings]. }
    destruct (isPlaying s); [by apply play_timing|done].
Qed.

Lemma resolution_set_timing size s :
  size = 256%Z ∨ size = 512%Z → timer_ok s → settings_ok s →
  settings_ok (resolution_set size s) ∧ delay_ok (resolution_set size s).
Proof.
  intros Hsize Htimer (Hf & Hts & Hop). split.
  - destruct (resolution_set_settings size s) as [Hts' Hf'].
    assert (LAYER_OPACITY (resolution_set size s) = LAYER_OPACITY s) as Ho.
    { rewrite resolution_set_eq. cbv zeta.
      cbn [LAYER_OPACITY set_rainLayer set_onMap set_FRAME_INTERVAL
           set_TILE_SIZE].
      destruct (isPlaying s); [|done].
      by destruct (settings_view_proj _ _ (pause_settings s)) as (_ & _ & -> & _). }
    unfold settings_ok. rewrite Hts', Hf', Ho.
    split; [destruct (size =? 512)%Z; lia|done].
  - apply no_timers_delay_ok.
    destruct (timer_view_proj _ _ (resolution_set_timer size s)) as (_ & _ & ->).
    destruct (isPlaying s) eqn:Hp; [by apply pause_timer_ok|].
    by apply idle_no_timers.
Qed.

Lemma setResolution_timing size s :
  size = 256%Z ∨ size = 512%Z → timer_ok s → settings_ok s →
  settings_ok (setResolution size s) ∧ delay_ok (setResolution size s).
Proof.
  intros Hsize Htimer Hset. rewrite setResolution_unfold. cbv zeta.
  apply (shown_then_mode_timing _ _ (isPlaying s)).
  by apply resolution_set_timing.
Qed.

Lemma speedSlider_timing value s :
  timer_ok s → settings_ok s →
  settings_ok (on_speedSlider_input value s) ∧
  delay_ok (on_speedSlider_input value s).
Proof.
  intros Htimer (Hf & Hts & Hop). unfold on_speedSlider_input. cbv zeta.
  set (s0 := set_FRAME_INTERVAL _ s).
  assert (settings_ok s0) as Hset0.
  { unfold settings_ok. subst s0. cbn. split; [lia|done]. }
  assert (timer_ok s0) as Htimer0 by exact Htimer.
  destruct (isPlaying s0) eqn:Hp.
  - apply play_timing. destruct (pause_timer_ok s0 Htimer0) as [_ Hempty].
    split; [|by apply no_timers_delay_ok].
    destruct (settings_view_proj _ _ (pause_settings s0)) as (_ & Hf' & Ho' & Ht').
    unfold settings_ok. by rewrite Hf', Ho', Ht'.
  - split; [done|]. by apply no_timers_delay_ok, idle_no_timers.
Qed.

Lemma setRadarOpacity_timing v s :
  (20 ≤ v ≤ 100)%Z → settings_ok s ∧ delay_ok s →
  settings_ok (setRadarOpacity v s) ∧ delay_ok (setRadarOpacity v s).
Proof.
  intros Hv [(Hf & Hts & Hop) Hdelay].
  destruct (setRadarOpacity_display v s) as (_ & _ & _ & _ & Hts' & Ho' & Hf').
  destruct (timer_view_proj _ _ (setRadarOpacity_timer v s)) as (_ & _ & Hi).
  unfold settings_ok, delay_ok. by rewrite Hts', Ho', Hf', Hi.
Qed.

Section TimingFacts.
Context `{Coercions}.

Lemma initRadarAnimation_settings radarRes satelliteRes s :
  settings_view (initRadarAnimation radarRes satelliteRes s) = settings_view s.
Proof.
  destruct radarRes as [| | |data]; try apply setMode_settings.
  destruct (radar_frames data (MAX_FRAMES s)) as [frames|] eqn:Hr;
    [|unfold initRadarAnimation; rewrite Hr; apply setMode_settings].
  rewrite (initRadarAnimation_unfold _ _ _ _ Hr). cbv zeta.
  assert (settings_view (refreshed data satelliteRes frames s) = settings_view s)
    as <- by done.
  generalize (refreshed data satelliteRes frames s). intros s0.
  destruct (0 <? length (active_frames s0))%nat; [|apply setMode_settings].
  set (s2 := setMode _ _).
  assert (settings_view s2 = settings_view s0) as <-
    by (subst s2; by rewrite setMode_settings, showFrame_settings).
  destruct (radarLayer s2); [|done]. by destruct (_ && _).
Qed.

Lemma handle_timing e s :
  timer_ok s → settings_ok s ∧ delay_ok s →
  settings_ok (handle e s) ∧ delay_ok (handle e s).
Proof.
  intros Htimer Hok.
  destruct e as [value| |value|value|r1 r2|value|value| | |m|r1 r2|id];
    cbn [handle].
  - by apply setLayerType_timing.
  - unfold on_playBtn_click.
    destruct (isPlaying s); [by apply pause_timing|by apply play_timing].
  - unfold on_frameSlider_input. cbv zeta.
    apply pause_timing in Hok. revert Hok.
    apply timing_view_ok; [apply showFrame_timer|apply showFrame_settings].
  - exact Hok.
  - apply pause_timing in Hok. revert Hok.
    apply timing_view_ok;
      [apply initRadarAnimation_timer|apply initRadarAnimation_settings].
  - apply speedSlider_timing; [done|by destruct Hok].
  - unfold on_opacitySlider_input. cbv zeta.
    apply setRadarOpacity_timing; [lia|done].
  - apply setResolution_timing; [by left|done|by destruct Hok].
  - apply setResolution_timing; [by right|done|by destruct Hok].
  - revert Hok. apply timing_view_ok; [apply setMode_timer|apply setMode_settings].
  - revert Hok. apply timing_view_ok;
      [apply initRadarAnimation_timer|apply initRadarAnimation_settings].
  - unfold on_timer. destruct (intervals s !! id); [|done].
    revert Hok. apply timing_view_ok; [apply showFrame_timer|apply showFrame_settings].
Qed.

(** X18.  In every state of the running page the frame interval lies in
    [120, 800] ms, the tile size is 256 or 512, the opacity lies in
    [20, 100] hundredths, and a live timer is the one the script remembers
    and was started with the current frame interval: a change of speed or
    resolution never leaves a timer ticking at the old rate. *)
Theorem reachable_settings (s : State) :
  reachable s →
  (120 ≤ FRAME_INTERVAL s ≤ 800)%Z ∧
  (TILE_SIZE s = 256%Z ∨ TILE_SIZE s = 512%Z) ∧
  (20 ≤ LAYER_OPACITY s ≤ 100)%Z ∧
  (∀ t delay, intervals s !! t = Some delay →
     animTimer s = Some t ∧ isPlaying s = true ∧ delay = FRAME_INTERVAL s).
Proof.
  intros Hreach.
  assert (settings_ok s ∧ delay_ok s) as [(Hf & Hts & Hop) Hdelay].
  { induction Hreach as [IS_MOBILE deviceMemory|e s Hreach IH].
    - split; [|by apply no_timers_delay_ok].
      unfold settings_ok. cbn. split; [lia|]. split; [by left|lia].
    - apply handle_timing; [|done].
      by destruct (reachable_invariant s Hreach). }
  destruct (reachable_invariant s Hreach) as ([Hflag Hdom] & _).
  split; [done|]. split; [done|]. split; [done|].
  intros t delay Ht. split; [|split; [|by apply (Hdelay t)]].
  - assert (t ∈ dom (intervals s)) as Hin by (apply elem_of_dom; by eexists).
    rewrite Hdom in Hin. destruct (animTimer s) as [t0|].
    + by apply elem_of_singleton in Hin as ->.
    + by apply elem_of_empty in Hin.
  - apply Hflag. assert (t ∈ dom (intervals s)) as Hin
      by (apply elem_of_dom; by eexists).
    rewrite Hdom in Hin. destruct (animTimer s) as [t0|]; [by eexists|].
    by apply elem_of_empty in Hin.
Qed.
End TimingFacts.

(** ** Frame lists of the running page *)

Lemma lastn_length_le {A} n (l : list A) : (length (lastn n l) ≤ n)%nat.
Proof. unfold lastn. rewrite length_drop. lia. Qed.

Lemma StronglySorted_drop {A} (R : relation A) k (l : list A) :
  StronglySorted R l → StronglySorted R (drop k l).
Proof.
  intros Hl. rewrite <- (take_drop k l) in Hl.
  by apply StronglySorted_app_1_r in Hl.
Qed.

Lemma NoDup_fmap_drop {A B} (f : A → B) k (l : list A) :
  NoDup (f <$> l) → NoDup (f <$> drop k l).
Proof.
  intros Hl. rewrite fmap_drop. eapply sublist_NoDup; [exact Hl|].
  apply sublist_drop.
Qed.

Section FrameListFacts.
Context `{Coercions}.

(** Whatever the shape of the payload, the radar frames are the tail of an
    ascending arrangement of finite numbers. *)
Lemma radar_frames_shape data MAX frames :
  radar_frames data MAX = Some frames →
  ∃ l, frames = slice (- MAX) (sort cmp_num (filter (λ n, isFinite n = true) l)).
Proof.
  unfold radar_frames. intros Hr.
  destruct (if truthy data then get data "radar" else Some VUndef) as [radarv|];
    [|done].
  simpl in Hr. destruct (truthy radarv).
  - destruct (get radarv "past") as [pastv|]; [|done]. simpl in Hr.
    destruct (get radarv "nowcast") as [nowcv|]; [|done]. simpl in Hr.
    destruct (mapM _ _) as [times|]; [|done]. simpl in Hr.
    injection Hr as <-. by eexists.
  - assert (∃ l : list num,
              [] = slice (- MAX)
                     (sort cmp_num (filter (λ n, isFinite n = true) l))) as Hnil
      by (exists []; unfold slice; simpl; by rewrite drop_nil).
    destruct data; injection Hr as <-; try exact Hnil. by eexists.
Qed.

Lemma radar_frames_sorted data MAX frames :
  (1 ≤ MAX)%Z → radar_frames data MAX = Some frames →
  (∃ times, frames = Fin <$> times ∧ StronglySorted Z.le times) ∧
  (length frames ≤ Z.to_nat MAX)%nat.
Proof.
  intros HMAX [l ->]%radar_frames_shape.
  rewrite filter_isFinite, (sort_fmap Fin gtZ cmp_num _ cmp_num_Fin).
  rewrite slice_neg, lastn_fmap by done. split.
  - eexists. split; [done|]. unfold lastn. apply StronglySorted_drop.
    by apply (sort_sorted gtZ id).
  - rewrite length_fmap. apply lastn_length_le.
Qed.

Lemma extract_sat_ok source : sat_ok (extractSatelliteFrames source).
Proof.
  split; [apply extract_NoDup|]. split; [|apply extract_sorted].
  apply Forall_forall. intros f (i & Hi & _)%elem_of_extract.
  apply (collected_path_nonempty source). by eapply list_elem_of_lookup_2.
Qed.

Lemma satellite_frames_sat_ok data satelliteRes :
  sat_ok (satellite_frames data satelliteRes).
Proof.
  assert (sat_ok []) as Hnil by (by repeat constructor).
  unfold satellite_frames.
  destruct (if truthy data then get data "satellite" else Some VUndef)
    as [sat|]; [|done].
  cbn [mbind option_bind].
  assert (sat_ok (if truthy sat then extractSatelliteFrames sat else []))
    as Hprimary by (destruct (truthy sat); [apply extract_sat_ok|done]).
  destruct (length _ =? 0)%nat; [|done].
  destruct satelliteRes; try done. apply extract_sat_ok.
Qed.

Lemma refreshed_frames_ok data satelliteRes frames s :
  (1 ≤ MAX_FRAMES s ≤ 60)%Z →
  radar_frames data (MAX_FRAMES s) = Some frames →
  frames_ok (refreshed data satelliteRes frames s).
Proof.
  intros HMAX Hr.
  destruct (radar_frames_sorted _ _ _ (proj1 HMAX) Hr) as [Hsorted Hlen].
  destruct (satellite_frames_sat_ok data satelliteRes) as (Hnd & Hpath & Hs).
  unfold frames_ok, refreshed. cbn.
  split; [done|]. split; [lia|].
  rewrite slice_neg by lia. unfold lastn.
  split; [by apply NoDup_fmap_drop|]. split; [by apply Forall_drop|].
  split; [by apply StronglySorted_drop|].
  pose proof (lastn_length_le (Z.to_nat (MAX_FRAMES s))
                (satellite_frames data satelliteRes)) as Hl.
  unfold lastn in Hl. lia.
Qed.

Lemma frames_ok_view s s' :
  frames_view s' = frames_view s → frames_ok s → frames_ok s'.
Proof. unfold frames_view, frames_ok. by intros [= _ -> ->]. Qed.

Lemma handle_frames_ok e s :
  (1 ≤ MAX_FRAMES s ≤ 60)%Z → frames_ok s → frames_ok (handle e s).
Proof.
  intros HMAX Hok.
  assert (∀ r1 r2 s0, (1 ≤ MAX_FRAMES s0 ≤ 60)%Z → frames_ok s0 →
            frames_ok (initRadarAnimation r1 r2 s0)) as Hinit.
  { intros r1 r2 s0 HMAX0 Hok0.
    destruct r1 as [| | |data];
      try (by apply (frames_ok_view _ _ (setMode_frames static s0))).
    destruct (radar_frames data (MAX_FRAMES s0)) as [frames|] eqn:Hr.
    - apply (frames_ok_view _ _ (initRadarAnimation_frames _ r2 _ _ Hr)).
      by apply refreshed_frames_ok.
    - unfold initRadarAnimation. rewrite Hr.
      by apply (frames_ok_view _ _ (setMode_frames static s0)). }
  destruct e as [value| |value|value|r1 r2|value|value| | |m|r1 r2|id];
    cbn [handle].
  - assert (rainFrames (setLayerType value s) = rainFrames s ∧
            satelliteFrames (setLayerType value s) = satelliteFrames s)
      as [Hrf Hsf].
    { destruct (layer_switched_frames value s) as (_ & <- & <- & _).
      rewrite setLayerType_unfold. cbv zeta.
      generalize (layer_switched value s). intros s0.
      assert (∀ s1, frames_view s1 = frames_view s0 →
                rainFrames s1 = rainFrames s0 ∧
                satelliteFrames s1 = satelliteFrames s0) as Hv
        by (intros s1 Hs1; by destruct (frames_view_proj _ _ Hs1) as (_ & -> & ->)).
      apply Hv.
      destruct (0 <? length (active_frames s0))%nat,
        (wants_animation (currentMode s0)), (isPlaying s);
        by rewrite ?play_frames, ?setMode_frames, ?showFrame_frames. }
    unfold frames_ok. by rewrite Hrf, Hsf.
  - unfold on_playBtn_click. destruct (isPlaying s).
    + by apply (frames_ok_view _ _ (pause_frames s)).
    + by apply (frames_ok_view _ _ (play_frames s)).
  - unfold on_frameSlider_input. cbv zeta.
    apply (frames_ok_view _ _ (showFrame_frames _ _)).
    by apply (frames_ok_view _ _ (pause_frames s)).
  - exact Hok.
  - apply Hinit.
    + by rewrite (settings_view_MAX_FRAMES _ _ (pause_settings s)).
    + by apply (frames_ok_view _ _ (pause_frames s)).
  - unfold on_speedSlider_input. cbv zeta.
    set (s0 := set_FRAME_INTERVAL _ s).
    destruct (isPlaying s0); [|exact Hok].
    apply (frames_ok_view _ _ (play_frames _)).
    by apply (frames_ok_view _ _ (pause_frames s0)).
  - unfold on_opacitySlider_input. cbv zeta.
    destruct (setRadarOpacity_vars
                (Z.max 20 (Z.min 100 (or_default (parseInt value) 60))) s)
      as (Hf & _).
    by apply (frames_ok_view _ _ Hf).
  - by apply (frames_ok_view _ _ (setResolution_frames 256 s)).
  - by apply (frames_ok_view _ _ (setResolution_frames 512 s)).
  - by apply (frames_ok_view _ _ (setMode_frames m s)).
  - by apply Hinit.
  - unfold on_timer. destruct (intervals s !! id); [|done].
    by apply (frames_ok_view _ _ (showFrame_frames _ _)).
Qed.

(** X19.  In every state of the running page, whatever the feeds held,
    the radar frames are finite times in ascending order and the satellite
    frames have non-empty, pairwise different paths and ascending times;
    neither list has more than 60 entries. *)
Theorem reachable_frame_lists (s : State) :
  reachable s →
  (∃ times, rainFrames s = Fin <$> times ∧ StronglySorted Z.le times) ∧
  (length (rainFrames s) ≤ 60)%nat ∧
  NoDup (path <$> satelliteFrames s) ∧
  Forall (λ f, path f ≠ "") (satelliteFrames s) ∧
  StronglySorted (key_le time_of) (satelliteFrames s) ∧
  (length (satelliteFrames s) ≤ 60)%nat.
Proof.
  intros Hreach. change (frames_ok s).
  induction Hreach as [IS_MOBILE deviceMemory|e s Hreach IH].
  - unfold frames_ok. cbn. split; [exists []; by repeat constructor|].
    by repeat constructor.
  - apply handle_frames_ok; [|done].
    destruct (reachable_invariant s Hreach) as (_ & _ & _ & HMAX). lia.
Qed.
End FrameListFacts.

(** ** Overlay objects that [showFrame] creates *)

(** X20.  With frames to show, [showFrame] never touches the static
    overlay; it reuses the animated overlay object when the map shows it,
    and otherwise creates a new object, which it puts on the map only in
    the modes Auto and Animated: in the modes Static and Off every call,
    each tick of the playback timer included, creates another object. *)
Theorem showFrame_overlay_reuse (i : Z) (s : State) :
  map_ok s → radar_finite s → active_frames s ≠ [] →
  (- Z.of_nat (length (active_frames s)) ≤ i)%Z →
  radarLayer (showFrame i s) = radarLayer s ∧
  (∀ r, radarLayer s = Some r → layers (showFrame i s) !! r = layers s !! r) ∧
  (shown (rainLayer s) s = true →
   rainLayer (showFrame i s) = rainLayer s ∧
   nextLayer (showFrame i s) = nextLayer s ∧
   onMap (showFrame i s) = onMap s) ∧
  (shown (rainLayer s) s = false →
   rainLayer (showFrame i s) = Some (nextLayer s) ∧
   nextLayer (showFrame i s) = S (nextLayer s) ∧
   onMap (showFrame i s)
   = if wants_animation (currentMode s) then {[nextLayer s]} ∪ onMap s
     else onMap s).
Proof.
  intros Hmap Hfin Hne Hi.
  pose proof (wrapped_in_bounds i s Hne Hi) as Hw.
  destruct (token_exists s (wrapped i s) Hfin Hw) as [token Htok].
  destruct (map_ok_fresh s Hmap) as (Hfr & _ & _).
  pose proof Hmap as ((r & Hr & _ & Hdiff) & _).
  destruct (showFrame_spec i s) as [?|_ Hnone|token' a _ _ Ha Hin|token' _ _ Hs];
    [done|congruence| |].
  - split; [done|]. split.
    + intros r' Hr'. unfold setUrl. cbn. apply lookup_alter_ne. congruence.
    + split; [by intros _|]. intros Hhidden.
      rewrite Ha in Hhidden. cbn [shown] in Hhidden.
      by apply bool_decide_eq_false in Hhidden.
  - set (u := rvFrameUrl _ _ _). set (s0 := set_frameIndex _ _).
    destruct (overlay_created_fields u s0) as (Ha & Hr' & Hn & Hl & Hon & _).
    rewrite Ha, Hr', Hn, Hl, Hon. split; [done|]. split.
    + intros r' Hr''. apply lookup_insert_ne.
      change (nextLayer s0) with (nextLayer s). congruence.
    + split; [intros Hshown; congruence|by intros _].
Qed.

(** ** The recommended frame cap *)

Lemma settings_view_recommended s s' :
  settings_view s' = settings_view s →
  RECOMMENDED_MAX_FRAMES s' = RECOMMENDED_MAX_FRAMES s.
Proof. unfold settings_view. by intros [= -> _ _ _ _]. Qed.

Lemma setLayerType_settings layerType s :
  settings_view (setLayerType layerType s) = settings_view s.
Proof.
  rewrite <- (layer_switched_settings layerType s).
  rewrite setLayerType_unfold. cbv zeta.
  generalize (layer_switched layerType s). intros s0.
  destruct (0 <? length (active_frames s0))%nat,
    (wants_animation (currentMode s0)), (isPlaying s);
    by rewrite ?play_settings, ?setMode_settings, ?showFrame_settings.
Qed.

Lemma setResolution_recommended size s :
  RECOMMENDED_MAX_FRAMES (setResolution size s) = RECOMMENDED_MAX_FRAMES s.
Proof.
  assert (RECOMMENDED_MAX_FRAMES (resolution_set size s)
          = RECOMMENDED_MAX_FRAMES s) as <-.
  { rewrite resolution_set_eq. cbv zeta.
    cbn [RECOMMENDED_MAX_FRAMES set_rainLayer set_onMap set_FRAME_INTERVAL
         set_TILE_SIZE].
    destruct (isPlaying s); [|done].
    apply settings_view_recommended, pause_settings. }
  apply settings_view_recommended.
  rewrite setResolution_unfold. cbv zeta.
  generalize (resolution_set size s). intros s0.
  destruct (isPlaying s);
    by rewrite ?play_settings, ?setMode_settings, ?showFrame_settings.
Qed.

Section FrameCap.
Context `{Coercions}.

Lemma handle_recommended e s :
  RECOMMENDED_MAX_FRAMES (handle e s) = RECOMMENDED_MAX_FRAMES s.
Proof.
  destruct e as [value| |value|value|r1 r2|value|value| | |m|r1 r2|id];
    cbn [handle]; try apply setResolution_recommended.
  - apply settings_view_recommended, setLayerType_settings.
  - unfold on_playBtn_click. apply settings_view_recommended.
    destruct (isPlaying s); [apply pause_settings|apply play_settings].
  - unfold on_frameSlider_input. cbv zeta. apply settings_view_recommended.
    by rewrite showFrame_settings, pause_settings.
  - done.
  - apply settings_view_recommended.
    by rewrite initRadarAnimation_settings, pause_settings.
  - unfold on_speedSlider_input. cbv zeta.
    set (s0 := set_FRAME_INTERVAL _ s).
    assert (RECOMMENDED_MAX_FRAMES s = RECOMMENDED_MAX_FRAMES s0) as -> by done.
    destruct (isPlaying s0); [|done]. apply settings_view_recommended.
    by rewrite play_settings, pause_settings.
  - unfold on_opacitySlider_input. cbv zeta. by rewrite setRadarOpacity_eq.
  - apply settings_view_recommended, setMode_settings.
  - apply settings_view_recommended, initRadarAnimation_settings.
  - unfold on_timer. destruct (intervals s !! id); [|done].
    apply settings_view_recommended, showFrame_settings.
Qed.

(** X21.  The recommended frame cap is 24, 36 or 48, so the bound
    [Math.min(60, ...)] in its definition never takes effect; no event
    changes it; and a max-frames input that is no number, or is zero,
    stores exactly the recommended cap. *)
Theorem maxFrames_falls_back (value : string) (s : State) :
  reachable s →
  RECOMMENDED_MAX_FRAMES s ∈ [24; 36; 48]%Z ∧
  (∀ IS_MOBILE deviceMemory,
     recommended_max_frames IS_MOBILE deviceMemory ∈ [24; 36; 48]%Z ∧
     recommended_max_frames true deviceMemory = 24%Z) ∧
  (parseInt value = None ∨ parseInt value = Some 0%Z →
   MAX_FRAMES (on_maxFrames_input value s) = RECOMMENDED_MAX_FRAMES s).
Proof.
  intros Hreach.
  assert (∀ IS_MOBILE deviceMemory,
            recommended_max_frames IS_MOBILE deviceMemory ∈ [24; 36; 48]%Z)
    as Hvalues.
  { intros IS_MOBILE deviceMemory. unfold recommended_max_frames.
    rewrite !elem_of_cons.
    destruct IS_MOBILE; [by left|].
    destruct (Qle_bool 8 _); [by right; right; left|].
    destruct (Qle_bool 4 _); [by right; left|by left]. }
  assert (RECOMMENDED_MAX_FRAMES s ∈ [24; 36; 48]%Z) as Hrec.
  { induction Hreach as [IS_MOBILE deviceMemory|e s Hreach IH].
    - apply Hvalues.
    - by rewrite handle_recommended. }
  split; [done|]. split; [by split|].
  intros Hparse. unfold on_maxFrames_input. cbn.
  assert (or_default (parseInt value) (RECOMMENDED_MAX_FRAMES s)
          = RECOMMENDED_MAX_FRAMES s) as ->
    by (by destruct Hparse as [-> | ->]).
  rewrite !elem_of_cons in Hrec.
  destruct Hrec as [->|[->|[->|Hnil]]]; try done.
  by apply elem_of_nil in Hnil.
Qed.
End FrameCap.

(** ** The further properties at concrete states *)

Lemma parseWindMph_largest_run_witness :
  ∃ m, parseWindMph (H := sample_coercions) (VStr "5 to 15 mph") = Some (Fin m) ∧
       (0 ≤ m < 2 ^ 53)%Z ∧ m ∈ run_values "5 to 15 mph" ∧
       Forall (λ x, (x ≤ m)%Z) (run_values "5 to 15 mph").
Proof.
  destruct (parseWindMph_largest_run (H := sample_coercions)
              (VStr "5 to 15 mph")) as [_ Hmax];
    [|destruct (Hmax (Fin 15)) as (m & Hm & Hrest);
        [vm_compute; reflexivity|
         exists m; split; [by rewrite <- Hm; vm_compute|exact Hrest]]].
  assert (run_values (to_string (H := sample_coercions) (VStr "5 to 15 mph"))
          = [5; 15]%Z) as -> by (vm_compute; reflexivity).
  repeat (apply Forall_cons_2; [vm_compute; reflexivity|]).
  apply Forall_nil_2.
Defined.

Lemma parseWindMph_forecast_texts_witness :
  parseWindMph (H := sample_coercions) (VStr "5 to 15 mph") = Some (Fin 15).
Proof.
  destruct (parseWindMph_forecast_texts (H := sample_coercions) 5 15)
    as (_ & Hrange & _); [reflexivity|reflexivity|exact Hrange].
Defined.

Lemma frameSlider_scrubs_witness :
  frameIndex (on_frameSlider_input "2" playing) = 2%Z ∧
  timer_count (on_frameSlider_input "2" playing) = 0%nat.
Proof.
  destruct (frameSlider_scrubs 2 playing) as (Hidx & _ & Hcount & _).
  - apply timer_ok_check. vm_compute. reflexivity.
  - vm_compute. split; [discriminate|reflexivity].
  - split; [exact Hidx|exact Hcount].
Defined.

Lemma playBtn_toggles_witness : timer_ok (on_playBtn_click animating).
Proof.
  apply (playBtn_toggles animating). apply timer_ok_check. vm_compute.
  reflexivity.
Defined.

Lemma speedSlider_retimes_witness :
  FRAME_INTERVAL (on_speedSlider_input "300" playing) = 300%Z.
Proof.
  destruct (speedSlider_retimes "300" playing) as (_ & Hclamp & _).
  - apply timer_ok_check. vm_compute. reflexivity.
  - apply (Hclamp 300%Z); [vm_compute; reflexivity|discriminate].
Defined.

Lemma radar_frames_legacy_witness :
  ∃ sorted : list Z,
    StronglySorted Z.le sorted ∧
    sorted ≡ₚ finite_values
                (Number (H := sample_coercions)
                   <$> [VNum (Fin 300); VNum (Fin 100); VNum (Fin 200)]) ∧
    radar_frames (H := sample_coercions)
      (VArr [VNum (Fin 300); VNum (Fin 100); VNum (Fin 200)]) 2
    = Some (Fin <$> lastn (Z.to_nat 2) sorted).
Proof.
  apply (radar_frames_legacy (H := sample_coercions)
           [VNum (Fin 300); VNum (Fin 100); VNum (Fin 200)] 2).
  lia.
Defined.

Lemma malformed_record_fails_refresh_witness :
  initRadarAnimation (H := sample_coercions)
    (Json (VObj [("radar", VObj [("past", VArr [time_record 100; VNull]);
                                 ("nowcast", VArr [])])]))
    (NotOk 404) animating
  = setMode static animating.
Proof.
  apply (malformed_record_fails_refresh (H := sample_coercions)
           (VObj [("radar", VObj [("past", VArr [time_record 100; VNull]);
                                  ("nowcast", VArr [])])])
           (VObj [("past", VArr [time_record 100; VNull]); ("nowcast", VArr [])])
           [time_record 100; VNull] [] (NotOk 404) animating);
    try reflexivity.
  apply Exists_cons_tl, Exists_cons_hd. left. reflexivity.
Defined.

Lemma refresh_shows_latest_witness :
  rainFrames animating = [Fin 100; Fin 200; Fin 300; Fin 400].
Proof.
  destruct (refresh_shows_latest (H := sample_coercions) sample_payload
              (NotOk 404) [Fin 100; Fin 200; Fin 300; Fin 400] started)
    as (Hrain & _); [|exact Hrain].
  vm_compute. reflexivity.
Defined.




Lemma showFrame_below_range_witness :
  nth (active_frames animating) (frameIndex (showFrame (-7) animating)) = None.
Proof.
  destruct (showFrame_below_range (-7) animating) as (_ & _ & Hnone).
  - vm_compute. discriminate.
  - vm_compute. reflexivity.
  - vm_compute. discriminate.
  - exact Hnone.
Defined.

Lemma refresh_closing_removal_witness :
  animating
  = let s0 := refreshed (H := sample_coercions) sample_payload (NotOk 404)
                [Fin 100; Fin 200; Fin 300; Fin 400] started in
    if (0 <? length (active_frames s0))%nat then
      setMode (currentMode s0)
        (showFrame (Z.of_nat (length (active_frames s0)) - 1) s0)
    else setMode static s0.
Proof.
  apply (refresh_closing_removal (H := sample_coercions) sample_payload
           (NotOk 404) [Fin 100; Fin 200; Fin 300; Fin 400] started).
  - apply map_ok_check. vm_compute. reflexivity.
  - vm_compute. reflexivity.
Defined.

Lemma reachable_settings_witness :
  (120 ≤ FRAME_INTERVAL (run (H := sample_coercions) session started) ≤ 800)%Z.
Proof.
  destruct (reachable_settings (H := sample_coercions)
              (run (H := sample_coercions) session started)) as (Hf & _);
    [|exact Hf].
  apply reachable_run, reachable_initial.
Defined.

Lemma reachable_frame_lists_witness :
  NoDup (path <$> satelliteFrames (run (H := sample_coercions) session started)).
Proof.
  destruct (reachable_frame_lists (H := sample_coercions)
              (run (H := sample_coercions) session started))
    as (_ & _ & Hnd & _); [|exact Hnd].
  apply reachable_run, reachable_initial.
Defined.

Lemma showFrame_overlay_reuse_witness :
  radarLayer (showFrame 1 animating) = radarLayer animating.
Proof.
  destruct (showFrame_overlay_reuse 1 animating) as (Hradar & _).
  - apply map_ok_check. vm_compute. reflexivity.
  - apply radar_finite_check. vm_compute. reflexivity.
  - vm_compute. discriminate.
  - vm_compute. discriminate.
  - exact Hradar.
Defined.

Lemma maxFrames_falls_back_witness :
  MAX_FRAMES (on_maxFrames_input "abc" (run (H := sample_coercions) session started))
  = RECOMMENDED_MAX_FRAMES (run (H := sample_coercions) session started).
Proof.
  destruct (maxFrames_falls_back (H := sample_coercions) "abc"
              (run (H := sample_coercions) session started))
    as (_ & _ & Hfall).
  - apply reachable_run, reachable_initial.
  - apply Hfall. left. vm_compute. reflexivity.
Defined.
